(** * Mini Cloud dashboard server: routing, log hub, build tracker, metrics

    A shallow embedding of [dashboard/server.js].  Each definition carries
    the name of the JavaScript function or handler it is read from.

    - The process-wide maps [logSubscribers] and [buildLogs] are finite
      maps from strings, the arrays they hold are lists, and a WebSocket
      object is named by the rank at which the server accepted it, so that
      two connections are never the same object.
    - Handlers of the log hub run in a state monad that can throw;
      [ws.send] on a socket that is not open throws.
    - What a handler awaits from outside (the registry, the container
      engine, a shell command) is an argument: [None] when the promise
      rejects.
    - Timers run on a clock counted in milliseconds: a timer fires when the
      clock reaches its due time and its callback takes no time.
    - Numbers are IEEE 754 binary64, with the operations of the
      specification of floating-point arithmetic of the standard library;
      their values, to bound them, are real numbers. *)

From Stdlib Require Import ZArith Lia Bool List.
From Stdlib Require Import SpecFloat Ascii.
From Stdlib Require Import Reals Lra.
From stdpp Require Import base option list strings gmap fin_maps.

Local Open Scope string_scope.
Local Open Scope list_scope.

(** ** JavaScript string primitives used by the server *)

Module JS.

(** [s.split(sep)] for a non-empty separator [sep]: the pieces of [s]
    between the non-overlapping occurrences of [sep], scanned from the left.
    [skip] counts the characters of a separator still to be dropped and
    [cur] is the piece being read. *)
Fixpoint split_go (sep : string) (skip : nat) (cur s : string) : list string :=
  match s with
  | EmptyString => [cur]
  | String c s' =>
      match skip with
      | S k => split_go sep k cur s'
      | O =>
          if String.prefix sep s
          then cur :: split_go sep (String.length sep - 1) "" s'
          else split_go sep 0 (cur +:+ String c "") s'
      end
  end.

Definition split (sep s : string) : list string := split_go sep 0 "" s.

(** [s.includes(needle)] *)
Fixpoint includes (needle s : string) : bool :=
  String.prefix needle s ||
  match s with
  | EmptyString => false
  | String _ s' => includes needle s'
  end.

(** [v || d] for a value that is either missing or a string: the empty
    string is falsy. *)
Definition truthy (s : string) : bool := negb (String.eqb s "").

End JS.

(** ** Reverse proxy routing: [app.use('/apps/*', ...)] *)

Module Routing.

(** One element of the array answered by [GET /api/apps].  [status] stays
    a string, as in the source; [port] is the text that the template
    literal of the proxy target interpolates. *)
Record AppRecord := {
  app_id : string;
  url : string;
  status : string;
  container_id : string;
  port : string
}.

(** What the middleware does, in order. *)
Inductive event :=
  | EvFetch (address : string)
  | EvConsoleError
  | EvProxy (target : string)
  | EvNext.

(** [hostname.split('.')[0]]; [split] never answers an empty array. *)
Definition subdomain (hostname : string) : string :=
  match JS.split "." hostname with
  | label :: _ => label
  | [] => ""
  end.

(** [app.url.split('://')[1]?.split('.')[0]]: [None] is [undefined]. *)
Definition appSubdomain (a : AppRecord) : option string :=
  match JS.split "://" (url a) with
  | _ :: rest :: _ => Some (subdomain rest)
  | _ => None
  end.

(** The predicate handed to [apps.find]: [appSubdomain === subdomain]. *)
Definition matches (sub : string) (a : AppRecord) : bool :=
  match appSubdomain a with
  | Some l => String.eqb l sub
  | None => false
  end.

(** [Array.prototype.find] *)
Fixpoint find (p : AppRecord -> bool) (apps : list AppRecord) : option AppRecord :=
  match apps with
  | [] => None
  | a :: rest => if p a then Some a else find p rest
  end.

(** [`http://${targetApp.container_id}:${targetApp.port}`] *)
Definition backend (a : AppRecord) : string :=
  "http://" +:+ container_id a +:+ ":" +:+ port a.

(** The guard of line 60. *)
Definition routable (sub : string) : bool :=
  JS.truthy sub && negb (String.eqb sub "www")
    && negb (String.eqb sub "dashboard") && negb (String.eqb sub "platform").

Section Middleware.

(** [process.env.PLATFORM_API_URL || 'http://platform:8000'] *)
Variable PLATFORM_API_URL : string.

(** The middleware.  [registry] is what [fetch] followed by [.json()]
    answers when it is issued: [None] when either of them throws. *)
Definition app_routing (hostname : string) (registry : option (list AppRecord))
  : list event :=
  let sub := subdomain hostname in
  if routable sub then
    EvFetch (PLATFORM_API_URL +:+ "/api/apps") ::
    match registry with
    | None => [EvConsoleError; EvNext]
    | Some apps =>
        match find (matches sub) apps with
        | Some targetApp =>
            if String.eqb (status targetApp) "running"
            then [EvProxy (backend targetApp)]
            else [EvNext]
        | None => [EvNext]
        end
    end
  else [EvNext].

End Middleware.

Definition is_fetch (e : event) : bool :=
  match e with EvFetch _ => true | _ => false end.

Definition reserved (label : string) : Prop :=
  label = "www" \/ label = "dashboard" \/ label = "platform" \/ label = "".

End Routing.


(** ** Log hub: [logSubscribers], [buildLogs] and the WebSocket handlers *)

Module LogHub.

(** A WebSocket object, named by the rank at which the server accepted it. *)
Abbreviation ws := nat (only parsing).

(** [ws.readyState] *)
Inductive readyState := CONNECTING | OPEN | CLOSING | CLOSED.

(** The [data] field of a frame: the whole buffer on replay, one line on a
    live broadcast. *)
Inductive payload :=
  | Buffer (lines : list string)
  | Line (line : string).

(** The object handed to [JSON.stringify] before [ws.send]. *)
Record frame := {
  frame_type : string;
  frame_data : payload;
  frame_timestamp : option Z
}.

(** What the server holds of one WebSocket: its state, the frames written
    to it so far, and the [appId] captured by its ['close'] listener when
    one was installed. *)
Record Socket := {
  ready : readyState;
  sent : list frame;
  close_listener : option string
}.

Record Hub := {
  logSubscribers : gmap string (list ws);
  buildLogs : gmap string (list string);
  sockets : gmap ws Socket;
  accepted : nat
}.

Definition empty_hub : Hub :=
  {| logSubscribers := ∅; buildLogs := ∅; sockets := ∅; accepted := 0 |}.

Definition set_logSubscribers (f : gmap string (list ws) -> gmap string (list ws))
  (h : Hub) : Hub :=
  {| logSubscribers := f (logSubscribers h); buildLogs := buildLogs h;
     sockets := sockets h; accepted := accepted h |}.

Definition set_buildLogs (f : gmap string (list string) -> gmap string (list string))
  (h : Hub) : Hub :=
  {| logSubscribers := logSubscribers h; buildLogs := f (buildLogs h);
     sockets := sockets h; accepted := accepted h |}.

Definition set_sockets (f : gmap ws Socket -> gmap ws Socket) (h : Hub) : Hub :=
  {| logSubscribers := logSubscribers h; buildLogs := buildLogs h;
     sockets := f (sockets h); accepted := accepted h |}.

(** *** Handlers run in a state monad that can throw *)

Inductive exn := NotOpen (c : ws).

Inductive outcome (A : Type) :=
  | Returned (a : A)
  | Thrown (e : exn).
Arguments Returned {A} a.
Arguments Thrown {A} e.

Definition M (A : Type) : Type := Hub -> outcome A * Hub.

#[export] Instance M_ret : MRet M := fun A a h => (Returned a, h).

#[export] Instance M_bind : MBind M := fun A B k m h =>
  match m h with
  | (Returned a, h') => k a h'
  | (Thrown e, h') => (Thrown e, h')
  end.

Definition modify (f : Hub -> Hub) : M unit := fun h => (Returned tt, f h).

Definition throw {A : Type} (e : exn) : M A := fun h => (Thrown e, h).

(** [array.forEach(f)] *)
Fixpoint forEach {A : Type} (l : list A) (f : A -> M unit) : M unit :=
  match l with
  | [] => mret tt
  | x :: rest => _ ← f x; forEach rest f
  end.

Definition readyState_of (h : Hub) (c : ws) : readyState :=
  match sockets h !! c with
  | Some s => ready s
  | None => CLOSED
  end.

Definition is_open (h : Hub) (c : ws) : bool :=
  match readyState_of h c with OPEN => true | _ => false end.

Definition sent_of (h : Hub) (c : ws) : list frame :=
  match sockets h !! c with
  | Some s => sent s
  | None => []
  end.

Definition subscribers_of (h : Hub) (appId : string) : list ws :=
  default [] (logSubscribers h !! appId).

(** [ws.send(JSON.stringify(f))] of the ws library.  Writing to a socket
    that is not open is taken to throw, the least favourable of the
    behaviours the library has had. *)
Definition ws_send (c : ws) (f : frame) : M unit := fun h =>
  match sockets h !! c with
  | Some s =>
      match ready s with
      | OPEN =>
          (Returned tt,
           set_sockets
             <[c := {| ready := OPEN; sent := sent s ++ [f];
                       close_listener := close_listener s |}]> h)
      | _ => throw (NotOpen c) h
      end
  | None => throw (NotOpen c) h
  end.

(** [{ type: 'logs', data: logData, timestamp: new Date().toISOString() }] *)
Definition live_frame (now : Z) (logData : string) : frame :=
  {| frame_type := "logs"; frame_data := Line logData; frame_timestamp := Some now |}.

(** [{ type: 'logs', data: buildLogs.get(buildId) }] *)
Definition replay_frame (lines : list string) : frame :=
  {| frame_type := "logs"; frame_data := Buffer lines; frame_timestamp := None |}.

(** The callback of the [forEach] of [broadcastLogs]:
    [if (ws.readyState === WebSocket.OPEN) ws.send(...)]. *)
Definition deliver (now : Z) (logData : string) (c : ws) : M unit := fun h =>
  if is_open h c then ws_send c (live_frame now logData) h else (Returned tt, h).

(** [broadcastLogs(appId, logData)], with [now] the reading of the clock. *)
Definition broadcastLogs (now : Z) (appId logData : string) : M unit := fun h =>
  match logSubscribers h !! appId with
  | Some subscribers => forEach subscribers (deliver now logData) h
  | None => (Returned tt, h)
  end.

(** The body of the timer of [simulateBuildLogs] for one line [log]:
    [buildLogs.set(appId, [...(buildLogs.get(appId) || []), log]);
     broadcastLogs(appId, log)]. *)
Definition publish (now : Z) (appId log : string) : M unit :=
  _ ← modify (set_buildLogs (fun logs => <[appId := default [] (logs !! appId) ++ [log]]> logs));
  broadcastLogs now appId log.

(** [subscribers.indexOf(ws)]: [-1] when absent. *)
Fixpoint indexOf (c : ws) (subscribers : list ws) : Z :=
  match subscribers with
  | [] => -1
  | x :: rest =>
      if Nat.eqb x c then 0
      else let i := indexOf c rest in if (i <? 0)%Z then -1 else (i + 1)%Z
  end.

(** The ['close'] listener of a subscriber of [appId]:
    [const subscribers = logSubscribers.get(appId) || [];
     const index = subscribers.indexOf(ws);
     if (index > -1) subscribers.splice(index, 1)]. *)
Definition unsubscribe (appId : string) (c : ws) (h : Hub) : Hub :=
  match logSubscribers h !! appId with
  | Some subscribers =>
      let index := indexOf c subscribers in
      if (-1 <? index)%Z
      then set_logSubscribers <[appId := delete (Z.to_nat index) subscribers]> h
      else h
  | None => h
  end.

(** [wss.on('connection', (ws, req) => ...)]: [appId] and [buildId] are the
    answers of [url.searchParams.get], [None] for [null]. *)
Definition on_connection (c : ws) (appId buildId : option string) : M unit :=
  match appId with
  | Some a =>
      if JS.truthy a then
        _ ← modify (set_logSubscribers (fun subs =>
               <[a := default [] (subs !! a) ++ [c]]> subs));
        _ ← (fun h =>
               match buildId with
               | Some b =>
                   match buildLogs h !! b with
                   | Some lines => ws_send c (replay_frame lines) h
                   | None => (Returned tt, h)
                   end
               | None => (Returned tt, h)
               end);
        modify (set_sockets (fun socks =>
          match socks !! c with
          | Some s => <[c := {| ready := ready s; sent := sent s;
                               close_listener := Some a |}]> socks
          | None => socks
          end))
      else mret tt
  | None => mret tt
  end.

(** [server.on('upgrade', ...)]: on [/ws/logs] the ws library completes the
    handshake, builds a new open WebSocket and the ['connection'] event runs;
    on any other path the raw socket is destroyed. *)
Definition upgrade (pathname : string) (appId buildId : option string) : M unit :=
  fun h =>
    if String.eqb pathname "/ws/logs" then
      let c := accepted h in
      on_connection c appId buildId
        {| logSubscribers := logSubscribers h; buildLogs := buildLogs h;
           sockets := <[c := {| ready := OPEN; sent := []; close_listener := None |}]>
                        (sockets h);
           accepted := S c |}
    else (Returned tt, h).

Definition set_ready (st : readyState) (c : ws) (h : Hub) : Hub :=
  set_sockets (fun socks =>
    match socks !! c with
    | Some s => <[c := {| ready := st; sent := sent s;
                         close_listener := close_listener s |}]> socks
    | None => socks
    end) h.

(** The ['close'] event of socket [c]: the socket is closed, then its
    listener, if any, runs. *)
Definition ws_close (c : ws) (h : Hub) : Hub :=
  match sockets h !! c with
  | Some s =>
      let h' := set_ready CLOSED c h in
      match close_listener s with
      | Some appId => unsubscribe appId c h'
      | None => h'
      end
  | None => h
  end.

(** Everything that can happen to the hub. *)
Inductive action :=
  | Upgrade (pathname : string) (appId buildId : option string)
  | Closing (c : ws)
  | Close (c : ws)
  | Publish (now : Z) (appId log : string)
  | SetBuffer (appId : string) (lines : list string)
  | DeleteBuffer (appId : string).

Definition perform (a : action) : M unit :=
  match a with
  | Upgrade pathname appId buildId => upgrade pathname appId buildId
  | Closing c => modify (set_ready CLOSING c)
  | Close c => modify (ws_close c)
  | Publish now appId log => publish now appId log
  | SetBuffer appId lines => modify (set_buildLogs <[appId := lines]>)
  | DeleteBuffer appId => modify (set_buildLogs (delete appId))
  end.

(** The hub after [a], whether the handler returned or threw. *)
Definition after (a : action) (h : Hub) : Hub := snd (perform a h).

Definition run (acts : list action) (h : Hub) : Hub :=
  fold_left (fun h a => after a h) acts h.

Definition reachable (h : Hub) : Prop := exists acts, h = run acts empty_hub.

Definition is_live (f : frame) : Prop :=
  exists now line, f = live_frame now line.

(** The frames of the replay on connection: the buffer of [buildId] when
    [buildLogs] has one. *)
Definition replay_for (buildId : option string) (h : Hub) : list frame :=
  match buildId with
  | Some b =>
      match buildLogs h !! b with
      | Some lines => [replay_frame lines]
      | None => []
      end
  | None => []
  end.

(** How many times [c] stands in a list of subscribers. *)
Fixpoint occurrences (c : ws) (l : list ws) : nat :=
  match l with
  | [] => 0
  | x :: rest => (if Nat.eqb x c then 1 else 0) + occurrences c rest
  end.

Definition listener_of (h : Hub) (c : ws) : option string :=
  match sockets h !! c with
  | Some s => close_listener s
  | None => None
  end.

(** Two hubs that differ at most in the frames written to their sockets. *)
Definition same_registry (h h' : Hub) : Prop :=
  logSubscribers h' = logSubscribers h /\
  buildLogs h' = buildLogs h /\
  accepted h' = accepted h /\
  (forall c, readyState_of h' c = readyState_of h c) /\
  (forall c, listener_of h' c = listener_of h c).

(** The invariant of the subscriber lists: no WebSocket stands twice in a
    list, and every one of them has been accepted. *)
Definition well_formed (h : Hub) : Prop :=
  forall appId,
    NoDup (subscribers_of h appId) /\
    Forall (fun c => c < accepted h) (subscribers_of h appId).

(** What the subscriber lists and the sockets have to do with each other:
    besides [well_formed], a listed socket has a ['close'] listener, which
    holds the subject of the list, and is not closed. *)
Definition coherent (h : Hub) : Prop :=
  well_formed h /\
  (forall c appId, c ∈ subscribers_of h appId -> listener_of h c = Some appId) /\
  (forall c appId, c ∈ subscribers_of h appId -> readyState_of h c <> CLOSED).

(** A socket that stands in no subscriber list. *)
Definition unlisted (h : Hub) (c : ws) : Prop :=
  forall appId, c ∉ subscribers_of h appId.

End LogHub.

(** ** Deployment tracker: template deployment and [simulateBuildLogs] *)

Module Tracker.

Import LogHub.

(** One entry of [TEMPLATES]. *)
Record Template := {
  name : string;
  git_url : string;
  description : string;
  env : list (string * string)
}.

Definition TEMPLATES : list (string * Template) :=
  [ ("nodejs-api",
     {| name := "Node.js API";
        git_url := "https://github.com/vercel/next.js/examples/api-routes";
        description := "Node.js API with Express";
        env := [("PORT", "3000"); ("NODE_ENV", "production")] |});
    ("python-fastapi",
     {| name := "Python FastAPI";
        git_url := "https://github.com/tiangolo/fastapi";
        description := "FastAPI Python backend";
        env := [("PORT", "8000"); ("PYTHONUNBUFFERED", "1")] |});
    ("static-site",
     {| name := "Static Site";
        git_url := "https://github.com/tailwindlabs/tailwindcss";
        description := "HTML/CSS/JS static site";
        env := [("PORT", "80")] |});
    ("wordpress",
     {| name := "WordPress";
        git_url := "https://github.com/docker-library/wordpress";
        description := "WordPress with MySQL";
        env := [("WORDPRESS_DB_HOST", "mysql"); ("WORDPRESS_DB_NAME", "wordpress")] |}) ].

(** [TEMPLATES[templateId]] *)
Fixpoint lookup_template (templateId : string) (table : list (string * Template))
  : option Template :=
  match table with
  | [] => None
  | (id, t) :: rest =>
      if String.eqb id templateId then Some t else lookup_template templateId rest
  end.

(** The closures handed to [setInterval] and [setTimeout].  [Tick] carries
    the variables its closure captures: [appId], [messages] and the mutable
    [index]. *)
Inductive callback :=
  | Tick (appId : string) (messages : list string) (index : nat)
  | Cleanup (appId : string).

Record Timer := {
  timer_id : nat;
  due : Z;
  period : option Z;
  callback_of : callback
}.

(** What the tracker did, and when (milliseconds). *)
Inductive entry :=
  | Published (time : Z) (appId line : string)
  | Purged (time : Z) (appId : string).

(** The process: the hub, the clock in milliseconds, the pending timers in
    the order they were armed, and the record of what the tracker did. *)
Record Runtime := {
  hub : Hub;
  clock : Z;
  timers : list Timer;
  next_timer : nat;
  journal : list entry
}.

(** The interval of [simulateBuildLogs] and the delay of its clean-up. *)
Definition tick_period : Z := 2000.
Definition retention : Z := 3600000.

(** The array [messages] of [simulateBuildLogs]. *)
Definition messages (templateName : string) : list string :=
  [ "📦 Cloning " +:+ templateName +:+ " template...";
    "🔧 Installing dependencies...";
    "🐳 Building Docker image...";
    "🚀 Starting container...";
    "✅ Deployment complete!" ].

Definition starting_line : string := "🚀 Starting template deployment...".

(** [setInterval(cb, ms)] and [setTimeout(cb, ms)] *)
Definition arm (repeat : bool) (cb : callback) (ms : Z) (r : Runtime) : Runtime :=
  {| hub := hub r; clock := clock r;
     timers := timers r ++
       [{| timer_id := next_timer r; due := clock r + ms;
           period := if repeat then Some ms else None; callback_of := cb |}];
     next_timer := S (next_timer r); journal := journal r |}.

Definition setInterval := arm true.
Definition setTimeout := arm false.

(** [clearInterval(id)]; also how a timeout leaves the queue once fired. *)
Definition clearTimer (id : nat) (r : Runtime) : Runtime :=
  {| hub := hub r; clock := clock r;
     timers := List.filter (fun t => negb (Nat.eqb (timer_id t) id)) (timers r);
     next_timer := next_timer r; journal := journal r |}.

(** [simulateBuildLogs(appId, templateName)] *)
Definition simulateBuildLogs (appId templateName : string) (r : Runtime) : Runtime :=
  setInterval (Tick appId (messages templateName) 0) tick_period r.

(** Lines 272-277 of the deploy handler, for a truthy [result.app_id]. *)
Definition start_session (app_id templateName : string) (r : Runtime) : Runtime :=
  simulateBuildLogs app_id templateName
    {| hub := set_buildLogs <[app_id := [starting_line]]> (hub r); clock := clock r;
       timers := timers r; next_timer := next_timer r; journal := journal r |}.

Inductive response :=
  | Deployed (template_name : string)
  | NotFound
  | ServerError.

(** [app.post('/api/templates/:templateId/deploy', ...)].  [deployed] is the
    answer of the platform API: [None] when the call throws, otherwise the
    [app_id] field of its JSON ([None] when absent). *)
Definition deploy (templateId : string) (deployed : option (option string))
  (r : Runtime) : response * Runtime :=
  match lookup_template templateId TEMPLATES with
  | None => (NotFound, r)
  | Some template =>
      match deployed with
      | None => (ServerError, r)
      | Some result_app_id =>
          (Deployed (name template),
           match result_app_id with
           | Some app_id =>
               if JS.truthy app_id then start_session app_id (name template) r else r
           | None => r
           end)
      end
  end.

(** The timer that fires next: the earliest due, the first armed among
    equals. *)
Fixpoint earliest (ts : list Timer) : option Timer :=
  match ts with
  | [] => None
  | t :: rest =>
      match earliest rest with
      | Some t' => if (due t' <? due t)%Z then Some t' else Some t
      | None => Some t
      end
  end.

Definition with_hub (h : Hub) (r : Runtime) : Runtime :=
  {| hub := h; clock := clock r; timers := timers r;
     next_timer := next_timer r; journal := journal r |}.

Definition record (e : entry) (r : Runtime) : Runtime :=
  {| hub := hub r; clock := clock r; timers := timers r;
     next_timer := next_timer r; journal := journal r ++ [e] |}.

(** An interval timer that has fired and stays armed: due again one period
    later, its closure holding the new [index]. *)
Definition rearm (t : Timer) (cb : callback) (r : Runtime) : Runtime :=
  {| hub := hub r; clock := clock r;
     timers := map (fun t' =>
                 if Nat.eqb (timer_id t') (timer_id t)
                 then {| timer_id := timer_id t;
                         due := clock r + default 0%Z (period t);
                         period := period t; callback_of := cb |}
                 else t') (timers r);
     next_timer := next_timer r; journal := journal r |}.

(** The callback of timer [t], run with the clock at its due time. *)
Definition fire (t : Timer) (r : Runtime) : Runtime :=
  match callback_of t with
  | Tick appId msgs index =>
      match msgs !! index with
      | Some log =>
          let h := snd (publish (clock r) appId log (hub r)) in
          rearm t (Tick appId msgs (S index))
            (record (Published (clock r) appId log) (with_hub h r))
      | None =>
          setTimeout (Cleanup appId) retention (clearTimer (timer_id t) r)
      end
  | Cleanup appId =>
      record (Purged (clock r) appId)
        (with_hub (set_buildLogs (delete appId) (hub r)) (clearTimer (timer_id t) r))
  end.

(** One turn of the event loop: the clock reaches the next timer, which
    fires.  [None] when no timer is pending. *)
Definition run_next (r : Runtime) : option Runtime :=
  match earliest (timers r) with
  | Some t =>
      Some (fire t {| hub := hub r; clock := Z.max (clock r) (due t);
                      timers := timers r; next_timer := next_timer r;
                      journal := journal r |})
  | None => None
  end.

(** [n] turns of the event loop, stopping early when it is idle. *)
Fixpoint advance (n : nat) (r : Runtime) : Runtime :=
  match n with
  | O => r
  | S k =>
      match run_next r with
      | Some r' => advance k r'
      | None => r
      end
  end.





Definition idle_runtime (h : Hub) (T : Z) : Runtime :=
  {| hub := h; clock := T; timers := []; next_timer := 0; journal := [] |}.

(** The process at the later time [T], no timer having come due since. *)
Definition at_time (T : Z) (r : Runtime) : Runtime :=
  {| hub := hub r; clock := T; timers := timers r; next_timer := next_timer r;
     journal := journal r |}.

(** When the tick of rank [i] (from 0) of a session started at [T] is due. *)
Definition tick_time (T : Z) (i : nat) : Z := (T + tick_period * Z.of_nat (S i))%Z.

(** The journal entries and the hub actions of the ticks that publish the
    lines [lines], in order. *)
Definition published (T : Z) (appId : string) (lines : list string) : list entry :=
  imap (fun i line => Published (tick_time T i) appId line) lines.

Definition publishes (T : Z) (appId : string) (lines : list string) : list action :=
  imap (fun i line => Publish (tick_time T i) appId line) lines.

(** The process [k] ticks into a session started at [T] on the hub [h],
    when no other timer is pending. *)
Definition session_after (h : Hub) (T : Z) (n : nat) (J : list entry)
  (appId : string) (msgs : list string) (k : nat) : Runtime :=
  {| hub := run (publishes T appId (take k msgs))
              (set_buildLogs <[appId := [starting_line]]> h);
     clock := (T + tick_period * Z.of_nat k)%Z;
     timers := [{| timer_id := n; due := tick_time T k; period := Some tick_period;
                   callback_of := Tick appId msgs k |}];
     next_timer := S n;
     journal := J ++ published T appId (take k msgs) |}.

End Tracker.


(** ** JavaScript numbers: IEEE 754 binary64 *)

Module Number.

Definition number : Type := spec_float.

Definition prec : Z := 53.
Definition emax : Z := 1024.

Definition add : number -> number -> number := SFadd prec emax.
Definition mul : number -> number -> number := SFmul prec emax.
Definition div : number -> number -> number := SFdiv prec emax.

(** [x < y] and [x <= y]; both are false when either side is [NaN]. *)
Definition lt : number -> number -> bool := SFltb.
Definition le : number -> number -> bool := SFleb.

(** The number nearest to an integer literal. *)
Definition of_Z (z : Z) : number := binary_normalize prec emax z 0 false.

Definition zero : number := S754_zero false.
Definition hundred : number := Eval cbv in of_Z 100.

(** The numbers that count as false: [0], [-0] and [NaN]. *)
Definition falsy (x : number) : bool :=
  match x with
  | S754_zero _ | S754_nan => true
  | _ => false
  end.

(** [x || 0] for a number [x] *)
Definition or_zero (x : number) : number := if falsy x then zero else x.

(** [v || 0] for a field [v] that is either [undefined] or a number *)
Definition field_or_zero (v : option number) : number :=
  match v with
  | Some x => or_zero x
  | None => zero
  end.

(** [Math.round(x)]: the integral number closest to [x], the one closer to
    plus infinity of two equally close; [x] itself when it is integral,
    infinite or [NaN]; [-0] for [-0.5 <= x < 0]. *)
Definition round (x : number) : number :=
  match x with
  | S754_finite s m e =>
      if (0 <=? e)%Z then x
      else
        let v := if s then Z.neg m else Z.pos m in
        binary_normalize prec emax ((2 * v + 2 ^ (- e)) / 2 ^ (1 - e))%Z 0 s
  | _ => x
  end.

(** A non-negative number that is neither infinite nor [NaN], in the form
    binary64 stores it. *)
Definition finite_nonneg (x : number) : bool :=
  match x with
  | S754_zero _ => true
  | S754_finite false m e => SpecFloat.bounded prec emax m e
  | _ => false
  end.

(** The real number that a mantissa and an exponent stand for. *)
Definition bpow (e : Z) : R := powerRZ 2 e.
Definition F2R (m e : Z) : R := (IZR m * bpow e)%R.

(** The integer a number stands for, when it is one. *)
Definition to_Z (x : number) : option Z :=
  match x with
  | S754_zero _ => Some 0%Z
  | S754_finite s m e =>
      let v := if s then Z.neg m else Z.pos m in
      if (0 <=? e)%Z then Some (v * 2 ^ e)%Z
      else if (v mod 2 ^ (- e) =? 0)%Z then Some (v / 2 ^ (- e))%Z else None
  | _ => None
  end.

End Number.

(** ** Metrics aggregator: [GET /api/system/metrics] and [getSystemStats] *)

Module Metrics.

Import Number.

(** The fields of [docker.info()] that the handler reads. *)
Record DockerInfo := {
  ServerVersion : string;
  Containers : number;
  ContainersRunning : number;
  ContainersStopped : number;
  MemTotal : number;
  NCPU : number
}.

Record NetworkSettings := {
  NetworkRx : option number;
  NetworkTx : option number
}.

(** The fields of one element of [docker.listContainers()] that the handler
    reads; [None] is a field that is [undefined]. *)
Record Container := {
  Names : list string;
  MemoryUsage : option number;
  Network : option NetworkSettings
}.

Record Disk := { usage : number; human : string }.

Record SystemStats := { cpuLoad : number; disk : Disk }.

Record Memory := { total : number; used : number; percent : number }.

(** The body of the 200 answer. *)
Record Snapshot := {
  docker_version : string;
  docker_containers : number;
  docker_running : number;
  docker_stopped : number;
  memory : Memory;
  cpu_cores : number;
  cpu_load : number;
  resources_disk : Disk;
  totalRx : number;
  totalTx : number
}.

Inductive response :=
  | Json (body : Snapshot)
  | Status500 (error : string).

(** [c.Names.some(name => name.includes('mini-cloud'))] *)
Definition is_platform (c : Container) : bool :=
  existsb (JS.includes "mini-cloud") (Names c).

(** [containers.filter(...)] of line 157 *)
Definition platformContainers (containers : list Container) : list Container :=
  List.filter is_platform containers.

(** [list.reduce((sum, c) => sum + counter(c), 0)] *)
Definition reduce_sum (counter : Container -> number) (l : list Container) : number :=
  fold_left (fun sum c => add sum (counter c)) l zero.

(** [c.MemoryUsage || 0] *)
Definition memory_counter (c : Container) : number := field_or_zero (MemoryUsage c).

(** [c.NetworkSettings?.NetworkRx || 0] *)
Definition rx_counter (c : Container) : number :=
  field_or_zero (s ← Network c; NetworkRx s).

(** [c.NetworkSettings?.NetworkTx || 0] *)
Definition tx_counter (c : Container) : number :=
  field_or_zero (s ← Network c; NetworkTx s).

(** [totalMemory > 0 ? Math.round((usedMemory / totalMemory) * 100) : 0] *)
Definition memory_percent (totalMemory usedMemory : number) : number :=
  if lt zero totalMemory
  then round (mul (div usedMemory totalMemory) hundred)
  else zero.

(** [s.replace('%', '')]: the first percent sign is dropped. *)
Fixpoint drop_percent (s : string) : string :=
  match s with
  | EmptyString => EmptyString
  | String c s' => if Ascii.eqb c "%"%char then s' else String c (drop_percent s')
  end.

(** The answer of the [catch] branch of [getSystemStats]. *)
Definition default_stats : SystemStats :=
  {| cpuLoad := zero; disk := {| usage := zero; human := "N/A" |} |}.

Section Builtins.

(** [parseFloat], [parseInt] and [String.prototype.trim] *)
Variables (parseFloat parseInt : string -> number) (trim : string -> string).

(** [getSystemStats()].  [cpu_exec] and [disk_exec] are the standard outputs
    of the two shell commands, [None] for a command whose promise rejects;
    the second command runs only after the first has succeeded. *)
Definition getSystemStats (cpu_exec disk_exec : option string) : SystemStats :=
  match cpu_exec with
  | None => default_stats
  | Some cpuStdout =>
      let cpuLoad := or_zero (parseFloat (trim cpuStdout)) in
      match disk_exec with
      | None => default_stats
      | Some diskStdout =>
          let diskUsage := drop_percent (trim diskStdout) in
          {| cpuLoad := round cpuLoad;
             disk := {| usage := or_zero (parseInt diskUsage);
                        human := trim diskStdout |} |}
      end
  end.

(** [app.get('/api/system/metrics', ...)].  [dockerInfo] and [containers]
    are the answers of [docker.info()] and [docker.listContainers()],
    [None] when the promise rejects. *)
Definition metrics (dockerInfo : option DockerInfo)
  (containers : option (list Container)) (cpu_exec disk_exec : option string)
  : response :=
  let systemStats := getSystemStats cpu_exec disk_exec in
  match dockerInfo, containers with
  | Some info, Some cs =>
      let platform := platformContainers cs in
      let totalMemory := MemTotal info in
      let usedMemory := reduce_sum memory_counter platform in
      Json
        {| docker_version := ServerVersion info;
           docker_containers := Containers info;
           docker_running := ContainersRunning info;
           docker_stopped := ContainersStopped info;
           memory := {| total := totalMemory; used := usedMemory;
                        percent := memory_percent totalMemory usedMemory |};
           cpu_cores := NCPU info;
           cpu_load := cpuLoad systemStats;
           resources_disk := disk systemStats;
           totalRx := reduce_sum rx_counter platform;
           totalTx := reduce_sum tx_counter platform |}
  | _, _ => Status500 "Failed to get system metrics"
  end.

End Builtins.

(** The sum of a list of numbers, added from the left starting at [0]. *)
Definition sum (l : list number) : number := fold_left add l zero.

(** The words of the specification for the memory percentage: [0] when the
    total is [0], [round(used / total * 100)] otherwise. *)
Definition spec_memory_percent (totalMemory usedMemory : number) : number :=
  if SFeqb totalMemory zero then zero
  else round (mul (div usedMemory totalMemory) hundred).

End Metrics.


(** ** Build log stream: [GET /api/builds/:buildId/logs] *)

Module Stream.

Import LogHub.

(** One [res.write]: an event that carries the whole buffer, and the time
    of the write except for the first one. *)
Inductive chunk :=
  | Initial (logs : list string)
  | Update (logs : list string) (timestamp : Z).

(** The response of one request: its headers, what has been written to it
    so far, and whether the interval of line 209 is still armed. *)
Record Response := {
  headers : list (string * string);
  written : list chunk;
  polling : bool
}.

(** [res.write(...)] *)
Definition write (c : chunk) (res : Response) : Response :=
  {| headers := headers res; written := written res ++ [c]; polling := polling res |}.

(** The handler, run when the hub is [h]. *)
Definition open (buildId : string) (h : Hub) : Response :=
  let res := {| headers := [("Content-Type", "text/event-stream");
                            ("Cache-Control", "no-cache");
                            ("Connection", "keep-alive")];
                written := []; polling := true |} in
  match buildLogs h !! buildId with
  | Some logs => write (Initial logs) res
  | None => res
  end.

(** The callback of the interval, due at [now] when the hub is [h]; a
    cleared interval does not run it. *)
Definition on_interval (buildId : string) (now : Z) (h : Hub) (res : Response)
  : Response :=
  if polling res then
    match buildLogs h !! buildId with
    | Some logs => write (Update logs now) res
    | None => res
    end
  else res.

(** [req.on('close', ...)]: [clearInterval(interval)] *)
Definition on_close (res : Response) : Response :=
  {| headers := headers res; written := written res; polling := false |}.

(** What happens to a stream once it is open: the interval comes due, or
    the client goes away. *)
Inductive event :=
  | Due (now : Z) (h : Hub)
  | Closed.

Definition step (buildId : string) (res : Response) (e : event) : Response :=
  match e with
  | Due now h => on_interval buildId now h res
  | Closed => on_close res
  end.

Definition run (buildId : string) (events : list event) (res : Response) : Response :=
  fold_left (step buildId) events res.

(** The events up to the first [Closed]. *)
Fixpoint before_close (events : list event) : list event :=
  match events with
  | [] => []
  | Closed :: _ => []
  | e :: rest => e :: before_close rest
  end.

Definition is_closed (e : event) : bool :=
  match e with Closed => true | Due _ _ => false end.

(** What one event writes while the interval is armed. *)
Definition pushed (buildId : string) (e : event) : option chunk :=
  match e with
  | Due now h => (fun logs => Update logs now) <$> buildLogs h !! buildId
  | Closed => None
  end.

(** The initial flush. *)
Definition flushed (buildId : string) (h : Hub) : list chunk :=
  match buildLogs h !! buildId with
  | Some logs => [Initial logs]
  | None => []
  end.

End Stream.


(** ** Concrete inputs used below *)

Module Samples.

Definition platform_api : string := "http://platform:8000".

(** Two records that answer to the label [foo]: the first one stopped, the
    second one running. *)
Definition foo_stopped : Routing.AppRecord :=
  {| Routing.app_id := "1"; Routing.url := "https://foo.example.com";
     Routing.status := "stopped"; Routing.container_id := "app-1";
     Routing.port := "3000" |}.

Definition foo_running : Routing.AppRecord :=
  {| Routing.app_id := "2"; Routing.url := "https://foo.example.com";
     Routing.status := "running"; Routing.container_id := "app-2";
     Routing.port := "3000" |}.

(** A running record whose URL came without a scheme. *)
Definition foo_bare : Routing.AppRecord :=
  {| Routing.app_id := "3"; Routing.url := "foo.example.com";
     Routing.status := "running"; Routing.container_id := "app-3";
     Routing.port := "3000" |}.

(** A hub with one subscriber of [app], reached by one upgrade. *)
Definition one_subscriber : LogHub.Hub :=
  LogHub.run [LogHub.Upgrade "/ws/logs" (Some "app") None] LogHub.empty_hub.

(** A hub that holds a buffer of one line for [build-1]. *)
Definition one_buffer : LogHub.Hub :=
  LogHub.run [LogHub.SetBuffer "build-1" ["line"]] LogHub.empty_hub.

(** The session of a deployment of the template [static-site] that the
    platform API named [app], started at time 0 on an empty hub. *)
Definition static_site_session : Tracker.Runtime :=
  Tracker.start_session "app" "Static Site" (Tracker.idle_runtime LogHub.empty_hub 0).

(** An engine with 200 bytes of memory, and two containers: one of the
    platform, listed without memory or network fields, and one of another
    project that has both. *)
Definition engine_info : Metrics.DockerInfo :=
  {| Metrics.ServerVersion := "24.0.7"; Metrics.Containers := Number.of_Z 2;
     Metrics.ContainersRunning := Number.of_Z 2; Metrics.ContainersStopped := Number.zero;
     Metrics.MemTotal := Number.of_Z 200; Metrics.NCPU := Number.of_Z 4 |}.

Definition listed_containers : list Metrics.Container :=
  [ {| Metrics.Names := ["/mini-cloud-dashboard"]; Metrics.MemoryUsage := None;
       Metrics.Network := None |};
    {| Metrics.Names := ["/other"]; Metrics.MemoryUsage := Some (Number.of_Z 57);
       Metrics.Network := Some {| Metrics.NetworkRx := Some (Number.of_Z 1);
                                  Metrics.NetworkTx := Some (Number.of_Z 1) |} |} ].

(** Stand-ins for [parseFloat], [parseInt] and [trim] where their answers
    do not matter. *)
Definition not_a_number (s : string) : Number.number := S754_nan.
Definition untrimmed (s : string) : string := s.

End Samples.

(** * Properties *)

(** ** Routing *)

Section RoutingFacts.

Import Routing.

Variable api : string.

Lemma find_none (p : AppRecord -> bool) (apps : list AppRecord) :
  (forall b, In b apps -> p b = false) -> find p apps = None.
Proof.
  induction apps as [|a rest IH]; intros Hall; simpl; [reflexivity|].
  rewrite (Hall a) by (left; reflexivity).
  apply IH. intros b Hb. apply Hall. right. exact Hb.
Qed.

Lemma find_first (p : AppRecord -> bool) (pre post : list AppRecord) (a : AppRecord) :
  (forall b, In b pre -> p b = false) -> p a = true ->
  find p (pre ++ a :: post) = Some a.
Proof.
  induction pre as [|b pre IH]; intros Hpre Ha; simpl.
  - rewrite Ha. reflexivity.
  - rewrite (Hpre b) by (left; reflexivity).
    apply IH; [|exact Ha]. intros b' Hb'. apply Hpre. right. exact Hb'.
Qed.

Lemma find_some (p : AppRecord -> bool) (apps : list AppRecord) (a : AppRecord) :
  find p apps = Some a -> In a apps /\ p a = true.
Proof.
  induction apps as [|b rest IH]; simpl; [discriminate|].
  destruct (p b) eqn:Hb.
  - intros [= ->]. split; [left; reflexivity | exact Hb].
  - intros H. destruct (IH H) as [Hin Hp]. split; [right; exact Hin | exact Hp].
Qed.

Lemma matches_true (sub : string) (a : AppRecord) :
  matches sub a = true <-> appSubdomain a = Some sub.
Proof.
  unfold matches. destruct (appSubdomain a) as [l|].
  - rewrite String.eqb_eq. split; [intros ->; reflexivity | intros [= ->]; reflexivity].
  - split; discriminate.
Qed.

Lemma matches_false (sub : string) (a : AppRecord) :
  appSubdomain a <> Some sub -> matches sub a = false.
Proof.
  intros H. destruct (matches sub a) eqn:E; [|reflexivity].
  apply matches_true in E. contradiction.
Qed.

Lemma routable_not_reserved (sub : string) :
  ~ reserved sub -> routable sub = true.
Proof.
  intros H. unfold routable, JS.truthy.
  repeat (apply andb_true_intro; split); apply negb_true_iff, String.eqb_neq;
    intros E; apply H; unfold reserved; tauto.
Qed.

Lemma routable_reserved (sub : string) :
  reserved sub -> routable sub = false.
Proof.
  intros [->|[->|[->| ->]]]; reflexivity.
Qed.

End RoutingFacts.

(** C2: a request whose host name has [www], [dashboard], [platform] or the
    empty string as its leftmost label makes the routing middleware call
    [next()] and nothing else: no fetch of the registry is issued and no
    error is logged, whatever the registry would have answered. *)
Theorem reserved_label_falls_through
  (api hostname : string) (registry : option (list Routing.AppRecord)) :
  Routing.reserved (Routing.subdomain hostname) ->
  Routing.app_routing api hostname registry = [Routing.EvNext] /\
  existsb Routing.is_fetch (Routing.app_routing api hostname registry) = false.
Proof.
  intros Hres. unfold Routing.app_routing. cbv zeta.
  rewrite (routable_reserved _ Hres). split; reflexivity.
Qed.

(** The theorem at [www.example.com], with a registry that would answer. *)
Lemma reserved_label_falls_through_www :
  Routing.reserved (Routing.subdomain "www.example.com") /\
  Routing.app_routing Samples.platform_api "www.example.com"
    (Some [Samples.foo_running]) = [Routing.EvNext] /\
  existsb Routing.is_fetch
    (Routing.app_routing Samples.platform_api "www.example.com"
       (Some [Samples.foo_running])) = false.
Proof.
  split.
  - left. reflexivity.
  - apply (reserved_label_falls_through Samples.platform_api "www.example.com").
    left. reflexivity.
Defined.

(** C3, as the code has it: for a host name whose leftmost label [L] is not
    reserved, the middleware fetches the registry and looks at the first
    record whose label is [L], and at that record only.  If it is running
    the request is proxied to its backend; if it is not running, or no
    record has the label, the request falls through.  Whatever is proxied
    to is the backend of a running record with label [L]. *)
Theorem first_label_match_decides
  (api hostname : string) (apps : list Routing.AppRecord) :
  ~ Routing.reserved (Routing.subdomain hostname) ->
  let L := Routing.subdomain hostname in
  let fetched := Routing.EvFetch (api +:+ "/api/apps") in
  let result := Routing.app_routing api hostname (Some apps) in
  (forall pre a post,
      apps = pre ++ a :: post ->
      (forall b, In b pre -> Routing.appSubdomain b <> Some L) ->
      Routing.appSubdomain a = Some L ->
      result = if String.eqb (Routing.status a) "running"
               then [fetched; Routing.EvProxy (Routing.backend a)]
               else [fetched; Routing.EvNext]) /\
  ((forall b, In b apps -> Routing.appSubdomain b <> Some L) ->
   result = [fetched; Routing.EvNext]) /\
  (forall target,
      In (Routing.EvProxy target) result ->
      exists a, In a apps /\ Routing.appSubdomain a = Some L /\
                Routing.status a = "running" /\ target = Routing.backend a).
Proof.
  intros Hres L fetched result. subst result. unfold Routing.app_routing.
  cbv zeta. rewrite (routable_not_reserved _ Hres). fold L fetched.
  split; [|split].
  - intros pre a post -> Hpre Ha.
    rewrite (find_first (Routing.matches L) pre post a).
    + destruct (String.eqb (Routing.status a) "running"); reflexivity.
    + intros b Hb. apply matches_false. apply Hpre. exact Hb.
    + apply matches_true. exact Ha.
  - intros Hnone. rewrite find_none; [reflexivity|].
    intros b Hb. apply matches_false. apply Hnone. exact Hb.
  - intros target Hin.
    destruct (Routing.find (Routing.matches L) apps) as [a|] eqn:Hfind.
    + destruct (find_some _ _ _ Hfind) as [Hina Hm].
      destruct (String.eqb (Routing.status a) "running") eqn:Hst.
      * exists a. repeat split.
        -- exact Hina.
        -- apply matches_true. exact Hm.
        -- apply String.eqb_eq. exact Hst.
        -- destruct Hin as [H|[H|[]]]; [discriminate H | congruence].
      * destruct Hin as [H|[H|[]]]; discriminate H.
    + destruct Hin as [H|[H|[]]]; discriminate H.
Qed.

(** The theorem at [foo.example.com], the running record first. *)
Lemma first_label_match_decides_foo :
  ~ Routing.reserved (Routing.subdomain "foo.example.com") /\
  Routing.app_routing Samples.platform_api "foo.example.com"
    (Some [Samples.foo_running; Samples.foo_stopped]) =
  [Routing.EvFetch "http://platform:8000/api/apps"; Routing.EvProxy "http://app-2:3000"].
Proof.
  assert (Hres : ~ Routing.reserved (Routing.subdomain "foo.example.com")).
  { intros [H|[H|[H|H]]]; discriminate H. }
  split; [exact Hres|].
  exact (proj1 (first_label_match_decides Samples.platform_api "foo.example.com"
                  [Samples.foo_running; Samples.foo_stopped] Hres)
           [] Samples.foo_running [Samples.foo_stopped] eq_refl
           (fun b (Hb : In b []) => match Hb with end) eq_refl).
Defined.

(** C3 as stated fails: a running record with label [foo] is in the
    registry, yet the request for [foo.example.com] falls through, because
    a stopped record with the same label comes first. *)
Lemma running_record_behind_stopped_one :
  In Samples.foo_running [Samples.foo_stopped; Samples.foo_running] /\
  Routing.appSubdomain Samples.foo_running = Some (Routing.subdomain "foo.example.com") /\
  Routing.status Samples.foo_running = "running" /\
  Routing.app_routing Samples.platform_api "foo.example.com"
    (Some [Samples.foo_stopped; Samples.foo_running]) =
  [Routing.EvFetch "http://platform:8000/api/apps"; Routing.EvNext].
Proof.
  repeat split. right. left. reflexivity.
Qed.

(** ** Log hub *)

Section HubFacts.

Import LogHub.

Lemma occurrences_absent (c : ws) (l : list ws) : c ∉ l -> occurrences c l = 0.
Proof.
  induction l as [|x rest IH]; intros Hc; simpl; [reflexivity|].
  apply not_elem_of_cons in Hc as [Hne Hrest].
  destruct (Nat.eqb_spec x c) as [->|_]; [contradiction|].
  rewrite IH by exact Hrest. reflexivity.
Qed.

Lemma occurrences_once (c : ws) (l : list ws) :
  NoDup l -> c ∈ l -> occurrences c l = 1.
Proof.
  induction l as [|x rest IH]; intros Hnd Hc; [inversion Hc|].
  apply NoDup_cons in Hnd as [Hx Hnd]. simpl.
  destruct (Nat.eqb_spec x c) as [->|Hne].
  - rewrite occurrences_absent by exact Hx. reflexivity.
  - apply elem_of_cons in Hc as [->|Hc]; [contradiction|].
    rewrite IH by assumption. reflexivity.
Qed.

Lemma same_registry_refl (h : Hub) : same_registry h h.
Proof. repeat split. Qed.

Lemma same_registry_trans (h1 h2 h3 : Hub) :
  same_registry h1 h2 -> same_registry h2 h3 -> same_registry h1 h3.
Proof.
  intros (A1 & A2 & A3 & A4 & A5) (B1 & B2 & B3 & B4 & B5).
  repeat split;
    first [ congruence
          | intros c; rewrite B4; apply A4
          | intros c; rewrite B5; apply A5 ].
Qed.

Lemma is_open_same (h h' : Hub) (c : ws) :
  same_registry h h' -> is_open h' c = is_open h c.
Proof. intros (_ & _ & _ & H & _). unfold is_open. rewrite H. reflexivity. Qed.

(** Writing one frame to an open socket. *)
Lemma ws_send_open (c : ws) (f : frame) (h : Hub) :
  is_open h c = true ->
  exists h', ws_send c f h = (Returned tt, h') /\ same_registry h h' /\
    forall c', sent_of h' c' = sent_of h c' ++ (if Nat.eqb c' c then [f] else []).
Proof.
  unfold is_open, readyState_of, ws_send. intros Hopen.
  destruct (sockets h !! c) as [s|] eqn:Hs; [|discriminate].
  destruct (ready s) eqn:Hr; try discriminate.
  eexists. split; [reflexivity|]. split.
  - repeat split; simpl.
    + intros c'. unfold readyState_of. simpl.
      destruct (decide (c = c')) as [<-|Hne].
      * rewrite lookup_insert_eq, Hs. simpl. congruence.
      * rewrite lookup_insert_ne by exact Hne. reflexivity.
    + intros c'. unfold listener_of. simpl.
      destruct (decide (c = c')) as [<-|Hne].
      * rewrite lookup_insert_eq, Hs. reflexivity.
      * rewrite lookup_insert_ne by exact Hne. reflexivity.
  - intros c'. unfold sent_of. simpl.
    destruct (Nat.eqb_spec c' c) as [->|Hne].
    + rewrite lookup_insert_eq, Hs. reflexivity.
    + rewrite lookup_insert_ne by congruence. rewrite app_nil_r. reflexivity.
Qed.

Lemma deliver_returns (now : Z) (d : string) (c : ws) (h : Hub) :
  exists h', deliver now d c h = (Returned tt, h') /\ same_registry h h' /\
    forall c', sent_of h' c' =
      sent_of h c' ++ (if is_open h c' && Nat.eqb c' c then [live_frame now d] else []).
Proof.
  unfold deliver. destruct (is_open h c) eqn:Hopen.
  - destruct (ws_send_open c (live_frame now d) h Hopen) as (h' & Hrun & Hsame & Hsent).
    exists h'. split; [exact Hrun|]. split; [exact Hsame|].
    intros c'. rewrite Hsent.
    destruct (Nat.eqb_spec c' c) as [->|_].
    + rewrite Hopen. reflexivity.
    + rewrite andb_false_r. reflexivity.
  - exists h. split; [reflexivity|]. split; [apply same_registry_refl|].
    intros c'. destruct (Nat.eqb_spec c' c) as [->|_].
    + rewrite Hopen. simpl. rewrite app_nil_r. reflexivity.
    + rewrite andb_false_r, app_nil_r. reflexivity.
Qed.

Lemma forEach_deliver (now : Z) (d : string) (l : list ws) (h : Hub) :
  exists h', forEach l (deliver now d) h = (Returned tt, h') /\ same_registry h h' /\
    forall c, sent_of h' c =
      sent_of h c ++
      (if is_open h c then repeat (live_frame now d) (occurrences c l) else []).
Proof.
  revert h. induction l as [|x rest IH]; intros h.
  - exists h. split; [reflexivity|]. split; [apply same_registry_refl|].
    intros c. simpl. destruct (is_open h c); rewrite app_nil_r; reflexivity.
  - destruct (deliver_returns now d x h) as (h1 & Hrun1 & Hsame1 & Hsent1).
    destruct (IH h1) as (h2 & Hrun2 & Hsame2 & Hsent2).
    exists h2. split.
    + simpl. unfold mbind, M_bind. rewrite Hrun1. exact Hrun2.
    + split; [exact (same_registry_trans _ _ _ Hsame1 Hsame2)|].
      intros c. rewrite Hsent2, Hsent1, (is_open_same _ _ c Hsame1). simpl.
      rewrite (Nat.eqb_sym x c).
      destruct (is_open h c); simpl.
      * destruct (Nat.eqb c x); simpl; rewrite <- app_assoc; reflexivity.
      * rewrite app_nil_r. reflexivity.
Qed.

Lemma broadcastLogs_returns (now : Z) (appId d : string) (h : Hub) :
  exists h', broadcastLogs now appId d h = (Returned tt, h') /\ same_registry h h' /\
    forall c, sent_of h' c =
      sent_of h c ++
      (if is_open h c
       then repeat (live_frame now d) (occurrences c (subscribers_of h appId))
       else []).
Proof.
  unfold broadcastLogs, subscribers_of.
  destruct (logSubscribers h !! appId) as [l|]; simpl.
  - apply forEach_deliver.
  - exists h. split; [reflexivity|]. split; [apply same_registry_refl|].
    intros c. destruct (is_open h c); rewrite app_nil_r; reflexivity.
Qed.

(** What one [publish] does to the hub. *)
Lemma publish_returns (now : Z) (appId log : string) (h : Hub) :
  exists h', publish now appId log h = (Returned tt, h') /\
    logSubscribers h' = logSubscribers h /\
    buildLogs h' = <[appId := default [] (buildLogs h !! appId) ++ [log]]> (buildLogs h) /\
    accepted h' = accepted h /\
    (forall c, readyState_of h' c = readyState_of h c) /\
    (forall c, listener_of h' c = listener_of h c) /\
    forall c, sent_of h' c =
      sent_of h c ++
      (if is_open h c
       then repeat (live_frame now log) (occurrences c (subscribers_of h appId))
       else []).
Proof.
  unfold publish, mbind, M_bind, modify.
  set (h0 := set_buildLogs _ h).
  destruct (broadcastLogs_returns now appId log h0) as (h' & Hrun & Hsame & Hsent).
  destruct Hsame as (S1 & S2 & S3 & S4 & S5).
  exists h'. split; [exact Hrun|].
  repeat split; try assumption.
Qed.

Lemma indexOf_absent (c : ws) (l : list ws) : c ∉ l -> indexOf c l = (-1)%Z.
Proof.
  induction l as [|x rest IH]; intros Hc; simpl; [reflexivity|].
  apply not_elem_of_cons in Hc as [Hne Hrest].
  destruct (Nat.eqb_spec x c) as [->|_]; [contradiction|].
  rewrite IH by exact Hrest. reflexivity.
Qed.

Lemma indexOf_lower (c : ws) (l : list ws) : (-1 <= indexOf c l)%Z.
Proof.
  induction l as [|x rest IH]; simpl; [lia|].
  destruct (Nat.eqb x c); [lia|].
  destruct (Z.ltb_spec (indexOf c rest) 0); lia.
Qed.

(** [splice] at the index found by [indexOf] removes the only occurrence of
    [c] from a list that holds it once. *)
Lemma splice_removes (c : ws) (l : list ws) :
  NoDup l -> (-1 < indexOf c l)%Z -> c ∉ delete (Z.to_nat (indexOf c l)) l.
Proof.
  induction l as [|x rest IH]; simpl; intros Hnd Hidx; [lia|].
  apply NoDup_cons in Hnd as [Hx Hnd].
  destruct (Nat.eqb_spec x c) as [->|Hne]; [exact Hx|].
  pose proof (indexOf_lower c rest) as Hlow.
  destruct (Z.ltb_spec (indexOf c rest) 0) as [Hneg|Hpos]; [lia|].
  replace (Z.to_nat (indexOf c rest + 1)) with (S (Z.to_nat (indexOf c rest))) by lia.
  simpl. apply not_elem_of_cons. split; [congruence|].
  apply IH; [exact Hnd | lia].
Qed.

Lemma unsubscribe_subscribers (appId S : string) (c : ws) (h : Hub) :
  subscribers_of (unsubscribe appId c h) S `sublist_of` subscribers_of h S.
Proof.
  unfold unsubscribe, subscribers_of.
  destruct (logSubscribers h !! appId) as [l|] eqn:Hl; [|reflexivity].
  destruct (_ <? _)%Z; [|reflexivity]. simpl.
  destruct (decide (appId = S)) as [<-|Hne].
  - rewrite lookup_insert_eq, Hl. simpl. apply sublist_delete.
  - rewrite lookup_insert_ne by exact Hne. reflexivity.
Qed.

Lemma unsubscribe_removes (appId : string) (c : ws) (h : Hub) :
  well_formed h -> c ∉ subscribers_of (unsubscribe appId c h) appId.
Proof.
  intros Hwf. unfold unsubscribe, subscribers_of.
  destruct (logSubscribers h !! appId) as [l|] eqn:Hl.
  - destruct (Z.ltb_spec (-1) (indexOf c l)) as [Hidx|Hidx]; simpl.
    + rewrite lookup_insert_eq. simpl.
      apply splice_removes; [|exact Hidx].
      pose proof (proj1 (Hwf appId)) as Hnd.
      unfold subscribers_of in Hnd. rewrite Hl in Hnd. exact Hnd.
    + rewrite Hl. simpl. intros Hc.
      destruct (decide (c ∈ l)) as [Hin|Hout]; [|contradiction].
      clear Hc. revert Hidx. clear -Hin.
      induction l as [|x rest IH]; [inversion Hin|]. simpl.
      destruct (Nat.eqb_spec x c) as [->|Hne]; [lia|].
      apply elem_of_cons in Hin as [->|Hin]; [contradiction|].
      specialize (IH Hin). destruct (Z.ltb_spec (indexOf c rest) 0); lia.
  - rewrite Hl. simpl. apply not_elem_of_nil.
Qed.

(** A WebSocket that is not in the list is left where it is. *)
Lemma unsubscribe_absent (appId : string) (c : ws) (h : Hub) :
  c ∉ subscribers_of h appId -> unsubscribe appId c h = h.
Proof.
  unfold unsubscribe, subscribers_of.
  destruct (logSubscribers h !! appId) as [l|]; simpl; [|reflexivity].
  intros Hc. rewrite indexOf_absent by exact Hc. reflexivity.
Qed.

Lemma unsubscribe_accepted (appId : string) (c : ws) (h : Hub) :
  accepted (unsubscribe appId c h) = accepted h.
Proof.
  unfold unsubscribe. destruct (logSubscribers h !! appId); [|reflexivity].
  destruct (_ <? _)%Z; reflexivity.
Qed.

Lemma sublist_well_formed (l l0 : list nat) (n n0 : nat) :
  l `sublist_of` l0 -> n0 <= n ->
  NoDup l0 /\ Forall (fun c => c < n0) l0 ->
  NoDup l /\ Forall (fun c => c < n) l.
Proof.
  intros Hsub Hle [Hnd Hall]. split.
  - exact (sublist_NoDup _ _ Hnd Hsub).
  - apply Forall_forall. intros x Hx.
    rewrite Forall_forall in Hall.
    specialize (Hall x (elem_of_sublist _ _ _ Hx Hsub)). lia.
Qed.

Lemma unsubscribe_well_formed (appId : string) (c : ws) (h : Hub) :
  well_formed h -> well_formed (unsubscribe appId c h).
Proof.
  intros Hwf S. rewrite unsubscribe_accepted.
  exact (sublist_well_formed _ _ _ _ (unsubscribe_subscribers appId S c h)
           (le_n _) (Hwf S)).
Qed.

Lemma truthy_nonempty (a : string) : a <> "" -> JS.truthy a = true.
Proof.
  intros H. unfold JS.truthy. apply negb_true_iff, String.eqb_neq. exact H.
Qed.

(** An upgrade on [/ws/logs] with a non-empty [appId]. *)
Lemma upgrade_subscribes (a : string) (buildId : option string) (h : Hub) :
  a <> "" ->
  upgrade "/ws/logs" (Some a) buildId h =
  (Returned tt,
   {| logSubscribers :=
        <[a := default [] (logSubscribers h !! a) ++ [accepted h]]> (logSubscribers h);
      buildLogs := buildLogs h;
      sockets := <[accepted h := {| ready := OPEN; sent := replay_for buildId h;
                                    close_listener := Some a |}]> (sockets h);
      accepted := S (accepted h) |}).
Proof.
  intros Ha. unfold upgrade, on_connection. simpl.
  rewrite (truthy_nonempty a Ha).
  unfold mbind, M_bind, modify, replay_for. simpl.
  destruct buildId as [b|]; [destruct (buildLogs h !! b) as [lines|]|];
    unfold ws_send, set_sockets, set_logSubscribers; simpl;
    repeat (rewrite lookup_insert_eq; simpl);
    rewrite ?insert_insert_eq; reflexivity.
Qed.

(** An upgrade on [/ws/logs] without a usable [appId]. *)
Lemma upgrade_ignores (appId buildId : option string) (h : Hub) :
  appId = None \/ appId = Some "" ->
  upgrade "/ws/logs" appId buildId h =
  (Returned tt,
   {| logSubscribers := logSubscribers h;
      buildLogs := buildLogs h;
      sockets := <[accepted h := {| ready := OPEN; sent := []; close_listener := None |}]>
                   (sockets h);
      accepted := S (accepted h) |}).
Proof. intros [->| ->]; reflexivity. Qed.

Lemma upgrade_elsewhere (pathname : string) (appId buildId : option string) (h : Hub) :
  pathname <> "/ws/logs" -> upgrade pathname appId buildId h = (Returned tt, h).
Proof.
  intros H. unfold upgrade. apply String.eqb_neq in H. rewrite H. reflexivity.
Qed.

(** The three shapes of the hub after an upgrade. *)
Lemma upgrade_cases (pathname : string) (appId buildId : option string) (h : Hub) :
  after (Upgrade pathname appId buildId) h = h \/
  after (Upgrade pathname appId buildId) h =
    {| logSubscribers := logSubscribers h; buildLogs := buildLogs h;
       sockets := <[accepted h := {| ready := OPEN; sent := []; close_listener := None |}]>
                    (sockets h);
       accepted := S (accepted h) |} \/
  exists a, appId = Some a /\
    after (Upgrade pathname appId buildId) h =
    {| logSubscribers :=
         <[a := default [] (logSubscribers h !! a) ++ [accepted h]]> (logSubscribers h);
       buildLogs := buildLogs h;
       sockets := <[accepted h := {| ready := OPEN; sent := replay_for buildId h;
                                     close_listener := Some a |}]> (sockets h);
       accepted := S (accepted h) |}.
Proof.
  unfold after. simpl.
  destruct (String.eqb_spec pathname "/ws/logs") as [->|Hp].
  - destruct appId as [a|].
    + destruct (String.eqb_spec a "") as [->|Ha].
      * right. left. rewrite upgrade_ignores by (right; reflexivity). reflexivity.
      * right. right. exists a. split; [reflexivity|].
        rewrite upgrade_subscribes by exact Ha. reflexivity.
    + right. left. rewrite upgrade_ignores by (left; reflexivity). reflexivity.
  - left. rewrite upgrade_elsewhere by exact Hp. reflexivity.
Qed.

Lemma set_ready_sent (st : readyState) (c c' : ws) (h : Hub) :
  sent_of (set_ready st c h) c' = sent_of h c'.
Proof.
  unfold set_ready, sent_of, set_sockets. simpl.
  destruct (sockets h !! c) as [s|] eqn:Hs; [|reflexivity].
  destruct (decide (c = c')) as [<-|Hne].
  - rewrite lookup_insert_eq, Hs. reflexivity.
  - rewrite lookup_insert_ne by exact Hne. reflexivity.
Qed.

Lemma unsubscribe_sockets (appId : string) (c : ws) (h : Hub) :
  sockets (unsubscribe appId c h) = sockets h.
Proof.
  unfold unsubscribe. destruct (logSubscribers h !! appId); [|reflexivity].
  destruct (_ <? _)%Z; reflexivity.
Qed.

Lemma ws_close_sent (c c' : ws) (h : Hub) : sent_of (ws_close c h) c' = sent_of h c'.
Proof.
  unfold ws_close. destruct (sockets h !! c) as [s|]; [|reflexivity].
  destruct (close_listener s) as [appId|].
  - unfold sent_of at 1. rewrite unsubscribe_sockets. apply set_ready_sent.
  - apply set_ready_sent.
Qed.

Lemma ws_close_subscribers (c : ws) (S : string) (h : Hub) :
  subscribers_of (ws_close c h) S `sublist_of` subscribers_of h S.
Proof.
  unfold ws_close. destruct (sockets h !! c) as [s|]; [|reflexivity].
  destruct (close_listener s) as [appId|]; [|reflexivity].
  etransitivity; [apply unsubscribe_subscribers|]. reflexivity.
Qed.

Lemma ws_close_accepted (c : ws) (h : Hub) : accepted (ws_close c h) = accepted h.
Proof.
  unfold ws_close. destruct (sockets h !! c) as [s|]; [|reflexivity].
  destruct (close_listener s); [|reflexivity].
  rewrite unsubscribe_accepted. reflexivity.
Qed.

(** What any one action does to the number of accepted sockets, to a list
    of subscribers, and to the frames of a socket accepted before it. *)
Lemma after_effects (a : action) (h : Hub) :
  accepted h <= accepted (after a h) /\
  (forall S, subscribers_of (after a h) S `sublist_of` subscribers_of h S \/
             (subscribers_of (after a h) S = subscribers_of h S ++ [accepted h] /\
              accepted (after a h) = Datatypes.S (accepted h))) /\
  (forall c, c < accepted h ->
     exists live, sent_of (after a h) c = sent_of h c ++ live /\ Forall is_live live).
Proof.
  assert (Hnil : forall (h' : Hub) c, sent_of h' c = sent_of h c ->
            exists live, sent_of h' c = sent_of h c ++ live /\ Forall is_live live).
  { intros h' c ->. exists []. rewrite app_nil_r. split; [reflexivity | constructor]. }
  destruct a as [pathname appId buildId|c|c|now appId log|appId lines|appId].
  - destruct (upgrade_cases pathname appId buildId h) as [E|[E|(a & _ & E)]];
      rewrite E; clear E; simpl.
    + split; [lia|]. split; [left; reflexivity|]. intros c _. apply Hnil. reflexivity.
    + split; [lia|]. split; [left; reflexivity|]. intros c Hc. apply Hnil.
      unfold sent_of. simpl. rewrite lookup_insert_ne by lia. reflexivity.
    + split; [lia|]. split.
      * intros S. unfold subscribers_of. simpl.
        destruct (decide (a = S)) as [<-|Hne].
        -- right. rewrite lookup_insert_eq. split; reflexivity.
        -- left. rewrite lookup_insert_ne by exact Hne. reflexivity.
      * intros c Hc. apply Hnil.
        unfold sent_of. simpl. rewrite lookup_insert_ne by lia. reflexivity.
  - unfold after. simpl. split; [lia|]. split; [left; reflexivity|].
    intros c' _. apply Hnil. apply set_ready_sent.
  - unfold after. simpl. rewrite ws_close_accepted. split; [lia|].
    split; [intros S; left; apply ws_close_subscribers|].
    intros c' _. apply Hnil. apply ws_close_sent.
  - unfold after. simpl.
    destruct (publish_returns now appId log h) as (h' & -> & E1 & _ & E3 & _ & _ & Hsent).
    simpl. rewrite E3. split; [lia|]. split.
    + intros S. left. unfold subscribers_of. rewrite E1. reflexivity.
    + intros c _. rewrite Hsent. eexists. split; [reflexivity|].
      destruct (is_open h c); [|constructor].
      apply Forall_forall. intros f Hf. apply list_elem_of_In, repeat_spec in Hf.
      subst f. exists now, log. reflexivity.
  - unfold after. simpl. split; [lia|]. split; [left; reflexivity|].
    intros c _. apply Hnil. reflexivity.
  - unfold after. simpl. split; [lia|]. split; [left; reflexivity|].
    intros c _. apply Hnil. reflexivity.
Qed.

Lemma after_well_formed (a : action) (h : Hub) :
  well_formed h -> well_formed (after a h).
Proof.
  intros Hwf S.
  destruct (after_effects a h) as (Hacc & Hsubs & _).
  destruct (Hsubs S) as [Hsub|[Happ Hnext]].
  - exact (sublist_well_formed _ _ _ _ Hsub Hacc (Hwf S)).
  - rewrite Happ, Hnext. destruct (Hwf S) as [Hnd Hall]. split.
    + apply NoDup_app. split; [exact Hnd|]. split; [|apply NoDup_singleton].
      intros x Hx Hx'. apply list_elem_of_singleton in Hx'. subst x.
      rewrite Forall_forall in Hall. specialize (Hall _ Hx). lia.
    + apply Forall_app. split.
      * eapply Forall_impl; [exact Hall|]. simpl. intros x Hx. lia.
      * constructor; [lia | constructor].
Qed.

Lemma run_snoc (acts : list action) (a : action) (h : Hub) :
  run (acts ++ [a]) h = after a (run acts h).
Proof. unfold run. rewrite fold_left_app. reflexivity. Qed.

Lemma run_well_formed (acts : list action) (h : Hub) :
  well_formed h -> well_formed (run acts h).
Proof.
  revert h. induction acts as [|a acts IH]; intros h Hwf; [exact Hwf|].
  simpl. apply IH. apply after_well_formed. exact Hwf.
Qed.

Lemma empty_hub_well_formed : well_formed empty_hub.
Proof. intros S. split; constructor. Qed.

Lemma reachable_well_formed (h : Hub) : reachable h -> well_formed h.
Proof.
  intros [acts ->]. apply run_well_formed. apply empty_hub_well_formed.
Qed.

(** A socket that has left the list of [S] stays out of it: only an
    upgrade adds to a list, and what it adds is a new socket. *)
Lemma run_keeps_out (acts : list action) (S : string) (c : ws) (h : Hub) :
  c < accepted h -> c ∉ subscribers_of h S ->
  c < accepted (run acts h) /\ c ∉ subscribers_of (run acts h) S.
Proof.
  revert h. induction acts as [|a acts IH]; intros h Hc Hout; [split; assumption|].
  simpl. destruct (after_effects a h) as (Hacc & Hsubs & _).
  apply IH; [lia|].
  destruct (Hsubs S) as [Hsub|[Happ _]].
  - intros Hin. apply Hout. exact (elem_of_sublist _ _ _ Hin Hsub).
  - rewrite Happ. intros Hin. apply elem_of_app in Hin as [Hin|Hin]; [contradiction|].
    apply list_elem_of_singleton in Hin. lia.
Qed.

(** The frames of a socket only grow, and by live frames. *)
Lemma run_appends_live (acts : list action) (c : ws) (h : Hub) :
  c < accepted h ->
  exists live, sent_of (run acts h) c = sent_of h c ++ live /\ Forall is_live live.
Proof.
  revert h. induction acts as [|a acts IH]; intros h Hc.
  - exists []. rewrite app_nil_r. split; [reflexivity | constructor].
  - simpl. destruct (after_effects a h) as (Hacc & _ & Hsent).
    destruct (Hsent c Hc) as (live1 & E1 & Hl1).
    destruct (IH (after a h)) as (live2 & E2 & Hl2); [lia|].
    exists (live1 ++ live2). split.
    + rewrite E2, E1, app_assoc. reflexivity.
    + apply Forall_app. split; assumption.
Qed.

End HubFacts.

(** C1: [publish] never throws; it appends the line to the buffer of its
    subject and to no other buffer, leaves the subscriber registry as it
    was, and writes one live frame carrying the line to every socket that
    is in the subject's list and open, once per place in the list (so once,
    lists being free of repetitions).  A socket outside the list, whatever
    other subject it subscribes to, receives nothing, and a socket of the
    list that is not open is passed over. *)
Theorem publish_reaches_open_subscribers (now : Z) (S L : string) (h : LogHub.Hub) :
  exists h',
    LogHub.publish now S L h = (LogHub.Returned tt, h') /\
    LogHub.buildLogs h' !! S = Some (default [] (LogHub.buildLogs h !! S) ++ [L]) /\
    (forall T, T <> S -> LogHub.buildLogs h' !! T = LogHub.buildLogs h !! T) /\
    LogHub.logSubscribers h' = LogHub.logSubscribers h /\
    (forall c, LogHub.sent_of h' c =
       LogHub.sent_of h c ++
       (if LogHub.is_open h c
        then repeat (LogHub.live_frame now L)
               (LogHub.occurrences c (LogHub.subscribers_of h S))
        else [])) /\
    (forall c, c ∉ LogHub.subscribers_of h S ->
       LogHub.sent_of h' c = LogHub.sent_of h c) /\
    (forall c, LogHub.is_open h c = false ->
       LogHub.sent_of h' c = LogHub.sent_of h c) /\
    (forall c, NoDup (LogHub.subscribers_of h S) ->
       c ∈ LogHub.subscribers_of h S -> LogHub.is_open h c = true ->
       LogHub.sent_of h' c = LogHub.sent_of h c ++ [LogHub.live_frame now L]).
Proof.
  destruct (publish_returns now S L h) as (h' & Hrun & E1 & E2 & _ & _ & _ & Hsent).
  exists h'. split; [exact Hrun|]. split; [|split; [|split; [exact E1|split; [exact Hsent|]]]].
  - rewrite E2. apply lookup_insert_eq.
  - intros T HT. rewrite E2. apply lookup_insert_ne. congruence.
  - split; [|split].
    + intros c Hc. rewrite Hsent, (occurrences_absent c _ Hc).
      destruct (LogHub.is_open h c); apply app_nil_r.
    + intros c Hc. rewrite Hsent, Hc. apply app_nil_r.
    + intros c Hnd Hc Hopen. rewrite Hsent, Hopen, (occurrences_once c _ Hnd Hc).
      reflexivity.
Qed.

(** C7: in a hub the server can reach, once the close listener of an
    accepted socket [c] has run for subject [S], no later [publish] on [S]
    writes a frame to [c], whatever happens in between; and running the
    listener a second time leaves the hub, hence the subscriber registry,
    exactly as the first run left it. *)
Theorem unsubscribed_socket_gets_nothing (h : LogHub.Hub) (S : string) (c : nat) :
  LogHub.reachable h -> c < LogHub.accepted h ->
  (forall acts now L,
     LogHub.sent_of
       (LogHub.after (LogHub.Publish now S L)
          (LogHub.run acts (LogHub.unsubscribe S c h))) c =
     LogHub.sent_of (LogHub.run acts (LogHub.unsubscribe S c h)) c) /\
  LogHub.unsubscribe S c (LogHub.unsubscribe S c h) = LogHub.unsubscribe S c h.
Proof.
  intros Hreach Hc.
  pose proof (reachable_well_formed h Hreach) as Hwf.
  pose proof (unsubscribe_removes S c h Hwf) as Hout.
  split.
  - intros acts now L.
    destruct (run_keeps_out acts S c (LogHub.unsubscribe S c h)) as [_ Hout'].
    { rewrite unsubscribe_accepted. exact Hc. }
    { exact Hout. }
    unfold LogHub.after. simpl.
    destruct (publish_returns now S L (LogHub.run acts (LogHub.unsubscribe S c h)))
      as (h' & -> & _ & _ & _ & _ & _ & Hsent).
    simpl. rewrite Hsent, (occurrences_absent c _ Hout').
    destruct (LogHub.is_open _ c); apply app_nil_r.
  - apply unsubscribe_absent. exact Hout.
Qed.

(** The theorem at the hub with one subscriber of [app]. *)
Lemma unsubscribed_socket_gets_nothing_app :
  LogHub.reachable Samples.one_subscriber /\
  0 < LogHub.accepted Samples.one_subscriber /\
  (forall acts now L,
     LogHub.sent_of
       (LogHub.after (LogHub.Publish now "app" L)
          (LogHub.run acts (LogHub.unsubscribe "app" 0 Samples.one_subscriber))) 0 =
     LogHub.sent_of
       (LogHub.run acts (LogHub.unsubscribe "app" 0 Samples.one_subscriber)) 0) /\
  LogHub.unsubscribe "app" 0 (LogHub.unsubscribe "app" 0 Samples.one_subscriber) =
  LogHub.unsubscribe "app" 0 Samples.one_subscriber.
Proof.
  assert (Hreach : LogHub.reachable Samples.one_subscriber).
  { exists [LogHub.Upgrade "/ws/logs" (Some "app") None]. reflexivity. }
  assert (Hacc : 0 < LogHub.accepted Samples.one_subscriber).
  { vm_compute. lia. }
  split; [exact Hreach|]. split; [exact Hacc|].
  exact (unsubscribed_socket_gets_nothing Samples.one_subscriber "app" 0 Hreach Hacc).
Defined.

(** C8, as the code has it: an upgrade on [/ws/logs] whose [appId] is not
    empty never throws; the new socket is appended to the subscribers of
    [appId]; it is open and has received the buffer of [buildId] in one
    frame without a time stamp when [buildLogs] holds such a buffer, and
    nothing otherwise; every frame it receives later is a live frame and
    comes after that one. *)
Theorem upgrade_registers_and_replays
  (h : LogHub.Hub) (a : string) (buildId : option string) :
  a <> "" ->
  exists h',
    LogHub.upgrade "/ws/logs" (Some a) buildId h = (LogHub.Returned tt, h') /\
    LogHub.subscribers_of h' a = LogHub.subscribers_of h a ++ [LogHub.accepted h] /\
    LogHub.is_open h' (LogHub.accepted h) = true /\
    LogHub.sent_of h' (LogHub.accepted h) = LogHub.replay_for buildId h /\
    (forall b lines, buildId = Some b -> LogHub.buildLogs h !! b = Some lines ->
       LogHub.sent_of h' (LogHub.accepted h) = [LogHub.replay_frame lines]) /\
    (forall acts, exists live,
       LogHub.sent_of (LogHub.run acts h') (LogHub.accepted h) =
         LogHub.replay_for buildId h ++ live /\
       Forall LogHub.is_live live).
Proof.
  intros Ha. eexists. split; [apply upgrade_subscribes; exact Ha|].
  assert (Hsent : LogHub.sent_of
            {| LogHub.logSubscribers :=
                 <[a := default [] (LogHub.logSubscribers h !! a) ++ [LogHub.accepted h]]>
                   (LogHub.logSubscribers h);
               LogHub.buildLogs := LogHub.buildLogs h;
               LogHub.sockets :=
                 <[LogHub.accepted h :=
                     {| LogHub.ready := LogHub.OPEN;
                        LogHub.sent := LogHub.replay_for buildId h;
                        LogHub.close_listener := Some a |}]> (LogHub.sockets h);
               LogHub.accepted := Datatypes.S (LogHub.accepted h) |}
            (LogHub.accepted h) = LogHub.replay_for buildId h).
  { unfold LogHub.sent_of. simpl. rewrite lookup_insert_eq. reflexivity. }
  split; [|split; [|split; [exact Hsent|split]]].
  - unfold LogHub.subscribers_of. simpl. rewrite lookup_insert_eq. reflexivity.
  - unfold LogHub.is_open, LogHub.readyState_of. simpl.
    rewrite lookup_insert_eq. reflexivity.
  - intros b lines -> Hb. rewrite Hsent. unfold LogHub.replay_for.
    rewrite Hb. reflexivity.
  - intros acts.
    match goal with
    | |- context [LogHub.run acts ?r] =>
        destruct (run_appends_live acts (LogHub.accepted h) r) as (live & E & Hlive)
    end.
    + simpl. lia.
    + rewrite Hsent in E. exists live. split; [exact E | exact Hlive].
Qed.

(** The theorem at the hub with a buffer for [build-1], for an upgrade
    with [appId=app] and [buildId=build-1]. *)
Lemma upgrade_registers_and_replays_app :
  "app" <> "" /\
  exists h',
    LogHub.upgrade "/ws/logs" (Some "app") (Some "build-1") Samples.one_buffer =
      (LogHub.Returned tt, h') /\
    LogHub.subscribers_of h' "app" =
      LogHub.subscribers_of Samples.one_buffer "app" ++ [LogHub.accepted Samples.one_buffer] /\
    LogHub.is_open h' (LogHub.accepted Samples.one_buffer) = true /\
    LogHub.sent_of h' (LogHub.accepted Samples.one_buffer) =
      LogHub.replay_for (Some "build-1") Samples.one_buffer /\
    (forall b lines, Some "build-1" = Some b ->
       LogHub.buildLogs Samples.one_buffer !! b = Some lines ->
       LogHub.sent_of h' (LogHub.accepted Samples.one_buffer) = [LogHub.replay_frame lines]) /\
    (forall acts, exists live,
       LogHub.sent_of (LogHub.run acts h') (LogHub.accepted Samples.one_buffer) =
         LogHub.replay_for (Some "build-1") Samples.one_buffer ++ live /\
       Forall LogHub.is_live live).
Proof.
  assert (Hne : "app" <> "") by discriminate.
  split; [exact Hne|].
  exact (upgrade_registers_and_replays Samples.one_buffer "app" (Some "build-1") Hne).
Defined.

(** C8 as stated fails for an [appId] parameter that is present and empty:
    [build-1] has a buffer, yet after the upgrade nobody subscribes to the
    empty subject and the new socket has received no frame. *)
Lemma empty_appId_is_not_registered :
  LogHub.buildLogs Samples.one_buffer !! "build-1" = Some ["line"] /\
  LogHub.logSubscribers
    (LogHub.after (LogHub.Upgrade "/ws/logs" (Some "") (Some "build-1")) Samples.one_buffer)
  = LogHub.logSubscribers Samples.one_buffer /\
  LogHub.subscribers_of
    (LogHub.after (LogHub.Upgrade "/ws/logs" (Some "") (Some "build-1")) Samples.one_buffer)
    "" = [] /\
  LogHub.sent_of
    (LogHub.after (LogHub.Upgrade "/ws/logs" (Some "") (Some "build-1")) Samples.one_buffer)
    (LogHub.accepted Samples.one_buffer) = [].
Proof.
  split; [reflexivity|].
  unfold LogHub.after, LogHub.perform.
  rewrite upgrade_ignores by (right; reflexivity).
  repeat split.
Qed.

(** C10: when the query has no [appId], the connection handler returns
    with the hub exactly as it found it, whatever [buildId] names: nobody is
    registered, no buffer changes, and no frame is written.  Seen from the
    upgrade, the only change is the new socket itself, open and with no
    frame. *)
Theorem connection_without_appId_is_inert
  (c : nat) (buildId : option string) (h : LogHub.Hub) :
  LogHub.on_connection c None buildId h = (LogHub.Returned tt, h) /\
  LogHub.logSubscribers (LogHub.after (LogHub.Upgrade "/ws/logs" None buildId) h)
    = LogHub.logSubscribers h /\
  LogHub.buildLogs (LogHub.after (LogHub.Upgrade "/ws/logs" None buildId) h)
    = LogHub.buildLogs h /\
  LogHub.sent_of (LogHub.after (LogHub.Upgrade "/ws/logs" None buildId) h)
    (LogHub.accepted h) = [] /\
  (forall c', c' <> LogHub.accepted h ->
     LogHub.sockets (LogHub.after (LogHub.Upgrade "/ws/logs" None buildId) h) !! c'
     = LogHub.sockets h !! c').
Proof.
  split; [reflexivity|].
  unfold LogHub.after, LogHub.perform.
  rewrite upgrade_ignores by (left; reflexivity). simpl.
  repeat split.
  - unfold LogHub.sent_of. simpl. rewrite lookup_insert_eq. reflexivity.
  - intros c' Hc'. apply lookup_insert_ne. congruence.
Qed.

(** ** Deployment tracker *)

Section TrackerFacts.

Import LogHub Tracker.

Lemma advance_add (n m : nat) (r : Runtime) :
  advance (n + m) r = advance m (advance n r).
Proof.
  revert r. induction n as [|n IH]; intros r; [reflexivity|].
  simpl. destruct (run_next r) as [r'|] eqn:Hr; [apply IH|].
  destruct m as [|m]; [reflexivity|]. simpl. rewrite Hr. reflexivity.
Qed.

Lemma advance_idle (n : nat) (r : Runtime) : timers r = [] -> advance n r = r.
Proof.
  intros Hidle. destruct n as [|n]; [reflexivity|].
  simpl. unfold run_next. rewrite Hidle. reflexivity.
Qed.

Lemma advance_next (r r' : Runtime) (n : nat) :
  run_next r = Some r' -> advance (S n) r = advance n r'.
Proof. intros H. simpl. rewrite H. reflexivity. Qed.

(** The interval timer of a session fires while lines remain. *)
Lemma run_next_tick (r : Runtime) (id : nat) (d p : Z) (appId log : string)
  (msgs : list string) (i : nat) :
  timers r = [{| timer_id := id; due := d; period := Some p;
                 callback_of := Tick appId msgs i |}] ->
  (clock r <= d)%Z -> msgs !! i = Some log ->
  run_next r =
  Some {| hub := after (Publish d appId log) (hub r);
          clock := d;
          timers := [{| timer_id := id; due := (d + p)%Z; period := Some p;
                        callback_of := Tick appId msgs (S i) |}];
          next_timer := next_timer r;
          journal := journal r ++ [Published d appId log] |}.
Proof.
  intros Ht Hclock Hmsg. unfold run_next. rewrite Ht. simpl.
  unfold fire. simpl. rewrite Hmsg.
  unfold rearm, record, with_hub. simpl.
  rewrite Nat.eqb_refl, Z.max_r by exact Hclock. simpl. reflexivity.
Qed.

(** It fires once more when no line remains: the interval is cleared and
    the clean-up is armed. *)
Lemma run_next_last_tick (r : Runtime) (id : nat) (d p : Z) (appId : string)
  (msgs : list string) (i : nat) :
  timers r = [{| timer_id := id; due := d; period := Some p;
                 callback_of := Tick appId msgs i |}] ->
  (clock r <= d)%Z -> msgs !! i = None ->
  run_next r =
  Some {| hub := hub r;
          clock := d;
          timers := [{| timer_id := next_timer r; due := (d + retention)%Z;
                        period := None; callback_of := Cleanup appId |}];
          next_timer := S (next_timer r);
          journal := journal r |}.
Proof.
  intros Ht Hclock Hmsg. unfold run_next. rewrite Ht. simpl.
  unfold fire. simpl. rewrite Hmsg.
  unfold setTimeout, arm, clearTimer. simpl.
  rewrite Nat.eqb_refl, Z.max_r by exact Hclock. simpl. reflexivity.
Qed.

Lemma run_next_cleanup (r : Runtime) (id : nat) (d : Z) (appId : string) :
  timers r = [{| timer_id := id; due := d; period := None;
                 callback_of := Cleanup appId |}] ->
  (clock r <= d)%Z ->
  run_next r =
  Some {| hub := set_buildLogs (delete appId) (hub r);
          clock := d;
          timers := [];
          next_timer := next_timer r;
          journal := journal r ++ [Purged d appId] |}.
Proof.
  intros Ht Hclock. unfold run_next. rewrite Ht. simpl.
  unfold fire. simpl. unfold record, with_hub, clearTimer. simpl.
  rewrite Nat.eqb_refl, Z.max_r by exact Hclock. simpl. reflexivity.
Qed.

Lemma start_session_after (h : Hub) (T : Z) (n : nat) (J : list entry)
  (appId templateName : string) :
  start_session appId templateName
    {| hub := h; clock := T; timers := []; next_timer := n; journal := J |} =
  session_after h T n J appId (messages templateName) 0.
Proof.
  unfold start_session, simulateBuildLogs, setInterval, arm, session_after. simpl.
  unfold tick_time, published. simpl. rewrite app_nil_r.
  replace (T + tick_period * Z.of_nat 0)%Z with T by lia.
  replace (T + tick_period * Z.of_nat 1)%Z with (T + tick_period)%Z by lia.
  reflexivity.
Qed.

Lemma session_step (h : Hub) (T : Z) (n : nat) (J : list entry)
  (appId : string) (msgs : list string) (k : nat) :
  k < length msgs ->
  run_next (session_after h T n J appId msgs k) =
  Some (session_after h T n J appId msgs (S k)).
Proof.
  intros Hk. destruct (lookup_lt_is_Some_2 msgs k Hk) as [log Hlog].
  rewrite (run_next_tick _ n (tick_time T k) tick_period appId log msgs k);
    [|reflexivity|simpl; unfold tick_time, tick_period; lia|exact Hlog].
  unfold session_after. simpl.
  rewrite (take_S_r msgs k log Hlog).
  unfold publishes, published. rewrite !imap_app. simpl. rewrite run_snoc.
  rewrite length_take, Nat.min_l, Nat.add_0_r by lia.
  rewrite <- app_assoc.
  f_equal. repeat f_equal. unfold tick_time, tick_period. lia.
Qed.

Lemma advance_session (h : Hub) (T : Z) (n : nat) (J : list entry)
  (appId : string) (msgs : list string) (k : nat) :
  k <= length msgs ->
  advance k (session_after h T n J appId msgs 0) = session_after h T n J appId msgs k.
Proof.
  induction k as [|k IH]; intros Hk; [reflexivity|].
  replace (S k) with (k + 1) at 1 by lia.
  rewrite advance_add, IH by lia.
  apply (advance_next _ _ 0). apply session_step. lia.
Qed.

(** The buffer of a subject after a run of publishes on it. *)
Lemma run_publishes_buffer (times : nat -> Z) (appId : string)
  (lines old : list string) (h : Hub) :
  buildLogs h !! appId = Some old ->
  buildLogs (run (imap (fun i line => Publish (times i) appId line) lines) h) !! appId =
  Some (old ++ lines).
Proof.
  revert times old h. induction lines as [|x rest IH]; intros times old h Hold.
  - simpl. rewrite app_nil_r. exact Hold.
  - assert (Hstep : buildLogs (after (Publish (times 0) appId x) h) !! appId
                    = Some (old ++ [x])).
    { unfold after. simpl.
      destruct (publish_returns (times 0) appId x h) as (h' & -> & _ & E & _).
      simpl. rewrite E, lookup_insert_eq, Hold. reflexivity. }
    pose proof (IH (fun j => times (S j)) (old ++ [x]) _ Hstep) as IH'.
    rewrite <- app_assoc in IH'. exact IH'.
Qed.



End TrackerFacts.


(** The deploy handler starts the session of the sample: the template
    [static-site], no timer pending, the platform API answering the
    identifier [app]. *)
Example deploy_static_site :
  Tracker.deploy "static-site" (Some (Some "app"))
    (Tracker.idle_runtime LogHub.empty_hub 0) =
  (Tracker.Deployed "Static Site", Samples.static_site_session).
Proof. reflexivity. Qed.

(** No session starts when the template is unknown, when the platform API
    fails, or when its answer carries no identifier. *)
Example deploy_without_session (r : Tracker.Runtime) :
  Tracker.deploy "no-such-template" (Some (Some "app")) r = (Tracker.NotFound, r) /\
  Tracker.deploy "static-site" None r = (Tracker.ServerError, r) /\
  Tracker.deploy "static-site" (Some None) r = (Tracker.Deployed "Static Site", r).
Proof. repeat split. Qed.


(** ** Metrics aggregator *)

Section MetricsFacts.

Import Number Metrics.

Lemma fold_add_map (counter : Container -> number) (l : list Container) (acc : number) :
  fold_left (fun sum c => add sum (counter c)) l acc = fold_left add (map counter l) acc.
Proof.
  revert acc. induction l as [|c rest IH]; intros acc; [reflexivity|].
  simpl. apply IH.
Qed.

Lemma reduce_sum_map (counter : Container -> number) (l : list Container) :
  reduce_sum counter l = sum (map counter l).
Proof. apply fold_add_map. Qed.

Lemma platformContainers_app (l1 l2 : list Container) :
  platformContainers (l1 ++ l2) = platformContainers l1 ++ platformContainers l2.
Proof. unfold platformContainers. induction l1 as [|c l1 IH]; simpl; [reflexivity|].
  destruct (is_platform c); simpl; rewrite IH; reflexivity.
Qed.

Lemma platformContainers_drop (pre post : list Container) (c : Container) :
  is_platform c = false ->
  platformContainers (pre ++ c :: post) = platformContainers (pre ++ post).
Proof.
  intros Hc. rewrite !platformContainers_app. f_equal.
  unfold platformContainers. simpl. rewrite Hc. reflexivity.
Qed.

Lemma platformContainers_idem (l : list Container) :
  platformContainers (platformContainers l) = platformContainers l.
Proof.
  unfold platformContainers. induction l as [|c l IH]; simpl; [reflexivity|].
  destruct (is_platform c) eqn:Hc; simpl; [rewrite Hc, IH|]; auto.
Qed.

Lemma is_platform_spec (c : Container) :
  is_platform c = true <->
  exists name, In name (Names c) /\ JS.includes "mini-cloud" name = true.
Proof. unfold is_platform. apply existsb_exists. Qed.

End MetricsFacts.

(** C5, as the code has it: when either shell command of [getSystemStats]
    fails, the request still answers a snapshot, whose CPU load is [0] and
    whose disk is [{usage: 0, human: 'N/A'}], every other field being
    computed as usual; when [docker.info()] or [docker.listContainers()]
    fails, the request answers status 500 and no snapshot. *)
Theorem metrics_degrades_for_host_stats_only
  (parseFloat parseInt : string -> Number.number) (trim : string -> string)
  (info : Metrics.DockerInfo) (cs : list Metrics.Container) :
  (forall cpu_exec disk_exec,
     cpu_exec = None \/ disk_exec = None ->
     Metrics.metrics parseFloat parseInt trim (Some info) (Some cs) cpu_exec disk_exec =
     Metrics.Json
       {| Metrics.docker_version := Metrics.ServerVersion info;
          Metrics.docker_containers := Metrics.Containers info;
          Metrics.docker_running := Metrics.ContainersRunning info;
          Metrics.docker_stopped := Metrics.ContainersStopped info;
          Metrics.memory :=
            {| Metrics.total := Metrics.MemTotal info;
               Metrics.used :=
                 Metrics.reduce_sum Metrics.memory_counter (Metrics.platformContainers cs);
               Metrics.percent :=
                 Metrics.memory_percent (Metrics.MemTotal info)
                   (Metrics.reduce_sum Metrics.memory_counter
                      (Metrics.platformContainers cs)) |};
          Metrics.cpu_cores := Metrics.NCPU info;
          Metrics.cpu_load := Number.zero;
          Metrics.resources_disk :=
            {| Metrics.usage := Number.zero; Metrics.human := "N/A" |};
          Metrics.totalRx :=
            Metrics.reduce_sum Metrics.rx_counter (Metrics.platformContainers cs);
          Metrics.totalTx :=
            Metrics.reduce_sum Metrics.tx_counter (Metrics.platformContainers cs) |}) /\
  (forall containers cpu_exec disk_exec,
     Metrics.metrics parseFloat parseInt trim None containers cpu_exec disk_exec =
     Metrics.Status500 "Failed to get system metrics") /\
  (forall dockerInfo cpu_exec disk_exec,
     Metrics.metrics parseFloat parseInt trim dockerInfo None cpu_exec disk_exec =
     Metrics.Status500 "Failed to get system metrics").
Proof.
  split_and!.
  - intros cpu_exec disk_exec [-> | ->]; [reflexivity|].
    destruct cpu_exec; reflexivity.
  - reflexivity.
  - intros [info'|]; reflexivity.
Qed.

(** C5 as stated fails: with the container engine down for [docker.info()]
    and everything else answering, the request fails as a whole. *)
Lemma engine_failure_fails_the_request :
  Metrics.metrics Samples.not_a_number Samples.not_a_number Samples.untrimmed
    None (Some []) (Some "12.5") (Some "40%") =
  Metrics.Status500 "Failed to get system metrics".
Proof. reflexivity. Qed.

(** C9: whenever the engine answers, the snapshot's [totalRx], [totalTx] and
    used memory are the sums of the counters of the containers kept by the
    filter, in the order of the list; the filter keeps exactly the
    containers one of whose names includes [mini-cloud]; and a container
    that the filter drops changes nothing in the answer: the answer is the
    same with it removed from the list. *)
Theorem aggregates_cover_platform_containers
  (parseFloat parseInt : string -> Number.number) (trim : string -> string)
  (info : Metrics.DockerInfo) (cs : list Metrics.Container)
  (cpu_exec disk_exec : option string) :
  (exists snap,
     Metrics.metrics parseFloat parseInt trim (Some info) (Some cs) cpu_exec disk_exec
       = Metrics.Json snap /\
     Metrics.totalRx snap
       = Metrics.sum (map Metrics.rx_counter (Metrics.platformContainers cs)) /\
     Metrics.totalTx snap
       = Metrics.sum (map Metrics.tx_counter (Metrics.platformContainers cs)) /\
     Metrics.used (Metrics.memory snap)
       = Metrics.sum (map Metrics.memory_counter (Metrics.platformContainers cs))) /\
  (forall c, In c (Metrics.platformContainers cs) <->
     In c cs /\ exists name, In name (Metrics.Names c) /\
                             JS.includes "mini-cloud" name = true) /\
  (forall pre c post,
     cs = pre ++ c :: post ->
     (forall name, In name (Metrics.Names c) -> JS.includes "mini-cloud" name = false) ->
     Metrics.metrics parseFloat parseInt trim (Some info) (Some (pre ++ post))
       cpu_exec disk_exec =
     Metrics.metrics parseFloat parseInt trim (Some info) (Some cs) cpu_exec disk_exec) /\
  Metrics.metrics parseFloat parseInt trim (Some info)
    (Some (Metrics.platformContainers cs)) cpu_exec disk_exec =
  Metrics.metrics parseFloat parseInt trim (Some info) (Some cs) cpu_exec disk_exec.
Proof.
  split_and!.
  - eexists. split; [reflexivity|]. simpl.
    rewrite !reduce_sum_map. split_and!; reflexivity.
  - intros c. unfold Metrics.platformContainers. rewrite filter_In, is_platform_spec.
    reflexivity.
  - intros pre c post -> Hnames.
    assert (Hc : Metrics.is_platform c = false).
    { destruct (Metrics.is_platform c) eqn:E; [|reflexivity].
      apply is_platform_spec in E as (name & Hin & Hinc).
      rewrite (Hnames name Hin) in Hinc. discriminate. }
    unfold Metrics.metrics. rewrite (platformContainers_drop pre post c Hc). reflexivity.
  - unfold Metrics.metrics. rewrite platformContainers_idem. reflexivity.
Qed.

(** ** Binary64 arithmetic: upper bounds on rounded results *)

Section FloatFacts.

Import Number.

Local Open Scope Z_scope.

Lemma bpow_pos (e : Z) : (0 < bpow e)%R.
Proof. unfold bpow. apply powerRZ_lt. lra. Qed.

Lemma bpow_add (a b : Z) : bpow (a + b) = (bpow a * bpow b)%R.
Proof. unfold bpow. apply powerRZ_add. lra. Qed.

Lemma bpow_IZR (k : Z) : 0 <= k -> bpow k = IZR (2 ^ k).
Proof.
  intros Hk. unfold bpow. destruct k as [|p|p]; [reflexivity| |lia].
  rewrite <- Zpower_pos_powerRZ. reflexivity.
Qed.

Lemma bpow_ge_1 (k : Z) : 0 <= k -> (1 <= bpow k)%R.
Proof.
  intros Hk. rewrite bpow_IZR by exact Hk. apply IZR_le.
  pose proof (Z.pow_pos_nonneg 2 k ltac:(lia) Hk). lia.
Qed.

Lemma bpow_le (a b : Z) : a <= b -> (bpow a <= bpow b)%R.
Proof.
  intros Hab. replace b with (a + (b - a)) by lia. rewrite bpow_add.
  pose proof (bpow_pos a). pose proof (bpow_ge_1 (b - a) ltac:(lia)). nra.
Qed.

Lemma bpow_lt_inv (a b : Z) : (bpow a < bpow b)%R -> a < b.
Proof.
  intros Hlt. destruct (Z.lt_ge_cases a b) as [H|H]; [exact H|].
  pose proof (bpow_le b a H). lra.
Qed.

Lemma F2R_nonneg (m e : Z) : 0 <= m -> (0 <= F2R m e)%R.
Proof.
  intros Hm. unfold F2R. pose proof (bpow_pos e). pose proof (IZR_le 0 m Hm). nra.
Qed.

Lemma F2R_le (m m' e : Z) : m <= m' -> (F2R m e <= F2R m' e)%R.
Proof.
  intros Hm. unfold F2R. pose proof (bpow_pos e). pose proof (IZR_le m m' Hm). nra.
Qed.

(** Dropping [k] low bits never increases the value. *)
Lemma F2R_shift_le (m e k : Z) :
  0 <= m -> 0 <= k -> (F2R (m / 2 ^ k) (e + k) <= F2R m e)%R.
Proof.
  intros Hm Hk. unfold F2R. rewrite bpow_add, (bpow_IZR k Hk).
  pose proof (bpow_pos e) as He.
  assert (Hpow : 0 < 2 ^ k) by (apply Z.pow_pos_nonneg; lia).
  pose proof (Z.mul_div_le m (2 ^ k) Hpow) as Hdiv.
  apply IZR_le in Hdiv. rewrite mult_IZR in Hdiv. nra.
Qed.

Lemma iter_pos_nat {A : Type} (f : A -> A) (p : positive) (x : A) :
  SpecFloat.iter_pos f p x = Nat.iter (Pos.to_nat p) f x.
Proof.
  revert x. induction p as [p IH|p IH|]; intros x; cbn [SpecFloat.iter_pos].
  - rewrite !IH, <- Nat.iter_succ_r, <- Nat.iter_add. f_equal. lia.
  - rewrite !IH, <- Nat.iter_add. f_equal. lia.
  - reflexivity.
Qed.

Lemma shr_1_m (mrs : shr_record) :
  0 <= shr_m mrs -> shr_m (shr_1 mrs) = shr_m mrs / 2.
Proof.
  destruct mrs as [m r s]. simpl. intros Hm.
  rewrite <- Z.div2_div.
  destruct m as [|[p|p|]|p]; try reflexivity. lia.
Qed.

Lemma shr_m_iter (k : nat) (mrs : shr_record) :
  0 <= shr_m mrs ->
  shr_m (Nat.iter k shr_1 mrs) = shr_m mrs / 2 ^ Z.of_nat k.
Proof.
  intros Hm. induction k as [|k IH].
  - simpl. rewrite Z.div_1_r. reflexivity.
  - rewrite Nat2Z.inj_succ, Z.pow_succ_r by lia. simpl.
    assert (Hpow : 0 < 2 ^ Z.of_nat k) by (apply Z.pow_pos_nonneg; lia).
    rewrite shr_1_m.
    + rewrite IH, Z.div_div by lia. f_equal. lia.
    + rewrite IH. apply Z.div_pos; lia.
Qed.

Lemma shr_record_of_loc_m (m : Z) (l : location) : shr_m (shr_record_of_loc m l) = m.
Proof. destruct l as [|[ | | ]]; reflexivity. Qed.

(** The first half of rounding: the mantissa is cut down to the exponent
    that the format gives to the value. *)
Lemma shr_fexp_spec (m e : Z) (l : location) :
  0 <= m ->
  snd (shr_fexp prec emax m e l) = Z.max e (fexp prec emax (Zdigits2 m + e)) /\
  shr_m (fst (shr_fexp prec emax m e l)) =
    m / 2 ^ (Z.max e (fexp prec emax (Zdigits2 m + e)) - e).
Proof.
  intros Hm. unfold shr_fexp, shr.
  destruct (fexp prec emax (Zdigits2 m + e) - e) as [|p|p] eqn:Hn; simpl.
  - rewrite Z.max_l by lia. rewrite Z.sub_diag, Z.div_1_r.
    split; [reflexivity | apply shr_record_of_loc_m].
  - rewrite Z.max_r by lia. split; [lia|].
    rewrite iter_pos_nat, shr_m_iter by (rewrite shr_record_of_loc_m; exact Hm).
    rewrite shr_record_of_loc_m, positive_nat_Z. f_equal. f_equal. lia.
  - rewrite Z.max_l by lia. rewrite Z.sub_diag, Z.div_1_r.
    split; [reflexivity | apply shr_record_of_loc_m].
Qed.

Lemma round_nearest_even_le (m : Z) (l : location) :
  m <= round_nearest_even m l <= m + 1.
Proof.
  unfold round_nearest_even. destruct l as [|[ | | ]]; try lia.
  destruct (Z.even m); lia.
Qed.

Lemma digits2_pos_size (p : positive) : digits2_pos p = Pos.size p.
Proof. induction p as [p IH|p IH|]; simpl; congruence. Qed.

(** A positive mantissa is at least the power of two of its last digit. *)
Lemma digits_lower (p : positive) : 2 ^ (Z.pos (digits2_pos p) - 1) <= Z.pos p.
Proof.
  rewrite digits2_pos_size.
  pose proof (Pos.size_le p) as H.
  assert (H' : 2 ^ Z.pos (Pos.size p) <= 2 * Z.pos p).
  { change (2 * Z.pos p) with (Z.pos p~0). rewrite <- Pos2Z.inj_pow. exact H. }
  replace (Z.pos (Pos.size p)) with (Z.succ (Z.pos (Pos.size p) - 1)) in H' by lia.
  rewrite Z.pow_succ_r in H' by lia. lia.
Qed.

Lemma digits_upper (p : positive) : Z.pos p < 2 ^ Z.pos (digits2_pos p).
Proof.
  rewrite digits2_pos_size. rewrite <- Pos2Z.inj_pow. apply Pos.size_gt.
Qed.

(** Rounding a non-negative value: the result is zero or a positive finite
    number, at most one unit of the cut-down exponent above the value, as
    long as that bound stays in the range of the format. *)
Lemma binary_round_aux_bound (mx ex : Z) (lx : location) :
  0 <= mx ->
  (F2R mx ex + bpow (Z.max ex (fexp prec emax (Zdigits2 mx + ex)))
     < bpow (emax - prec + 1))%R ->
  binary_round_aux prec emax false mx ex lx = S754_zero false \/
  exists m e,
    binary_round_aux prec emax false mx ex lx = S754_finite false m e /\
    (F2R (Z.pos m) e
       <= F2R mx ex + bpow (Z.max ex (fexp prec emax (Zdigits2 mx + ex))))%R.
Proof.
  intros Hmx Hrange. unfold binary_round_aux.
  destruct (shr_fexp_spec mx ex lx Hmx) as [He1 Hm1].
  destruct (shr_fexp prec emax mx ex lx) as [mrs1 e1]. simpl in He1, Hm1.
  rewrite <- He1 in Hm1.
  set (m2 := round_nearest_even (shr_m mrs1) (loc_of_shr_record mrs1)).
  assert (Hpow1 : 0 < 2 ^ (e1 - ex)) by (apply Z.pow_pos_nonneg; lia).
  assert (Hm1' : 0 <= shr_m mrs1) by (rewrite Hm1; apply Z.div_pos; lia).
  pose proof (round_nearest_even_le (shr_m mrs1) (loc_of_shr_record mrs1)) as Hm2.
  fold m2 in Hm2.
  assert (Hm2' : 0 <= m2) by lia.
  destruct (shr_fexp_spec m2 e1 loc_Exact Hm2') as [He2 Hm3].
  destruct (shr_fexp prec emax m2 e1 loc_Exact) as [mrs2 e2]. simpl in He2, Hm3.
  rewrite <- He2 in Hm3.
  assert (Hbound : (F2R (shr_m mrs2) e2 <= F2R mx ex + bpow e1)%R).
  { assert (H3 : (F2R (shr_m mrs2) e2 <= F2R m2 e1)%R).
    { pose proof (F2R_shift_le m2 e1 (e2 - e1) Hm2' ltac:(lia)) as H.
      replace (e1 + (e2 - e1)) with e2 in H by lia. rewrite Hm3. exact H. }
    assert (H2 : (F2R m2 e1 <= F2R (shr_m mrs1) e1 + bpow e1)%R).
    { pose proof (F2R_le m2 (shr_m mrs1 + 1) e1 ltac:(lia)) as H.
      unfold F2R in *. rewrite plus_IZR in H. lra. }
    assert (H1 : (F2R (shr_m mrs1) e1 <= F2R mx ex)%R).
    { pose proof (F2R_shift_le mx ex (e1 - ex) Hmx ltac:(lia)) as H.
      replace (ex + (e1 - ex)) with e1 in H by lia. rewrite Hm1. exact H. }
    lra. }
  assert (Hpow2 : 0 < 2 ^ (e2 - e1)) by (apply Z.pow_pos_nonneg; lia).
  assert (Hm3' : 0 <= shr_m mrs2) by (rewrite Hm3; apply Z.div_pos; lia).
  rewrite <- He1 in Hrange |- *.
  destruct (shr_m mrs2) as [|m|m] eqn:Hm; [left; reflexivity| |lia].
  right. exists m, e2.
  assert (Hfit : e2 <= emax - prec).
  { assert (Hlow : (bpow e2 <= F2R (Z.pos m) e2)%R).
    { unfold F2R. pose proof (bpow_pos e2).
      pose proof (IZR_le 1 (Z.pos m) ltac:(lia)). nra. }
    assert (Hlt : (bpow e2 < bpow (emax - prec + 1))%R) by lra.
    apply bpow_lt_inv in Hlt. lia. }
  apply Z.leb_le in Hfit. rewrite Hfit. split; [reflexivity | exact Hbound].
Qed.

Lemma bpow_8 : bpow 8 = 256%R.
Proof. rewrite bpow_IZR by lia. reflexivity. Qed.

Lemma bpow_m8 : bpow (-8) = (/ 256)%R.
Proof.
  pose proof (bpow_add (-8) 8) as H. rewrite bpow_8 in H.
  change (-8 + 8) with 0 in H. change (bpow 0) with 1%R in H.
  pose proof (bpow_pos (-8)). lra.
Qed.

Lemma bpow_small (e : Z) : e <= -8 -> (bpow e <= / 256)%R.
Proof. intros He. rewrite <- bpow_m8. apply bpow_le. exact He. Qed.

Lemma bpow_1 : bpow 1 = 2%R.
Proof. rewrite bpow_IZR by lia. reflexivity. Qed.

Lemma bpow_7 : bpow 7 = 128%R.
Proof. rewrite bpow_IZR by lia. reflexivity. Qed.

Lemma bpow_top : (128 <= bpow (emax - prec + 1))%R.
Proof. rewrite <- bpow_7. apply bpow_le. unfold emax, prec. lia. Qed.

(** The number of digits of a mantissa, from a bound on the value. *)
Lemma digits_from_value (m e k : Z) :
  0 <= m -> (F2R m e < bpow k)%R -> e <= k -> Zdigits2 m + e <= k.
Proof.
  intros Hm Hlt Hek. destruct m as [|p|p]; [simpl; lia| |lia].
  simpl. pose proof (digits_lower p) as Hlow.
  assert (Hd : 0 <= Z.pos (digits2_pos p) - 1) by lia.
  apply IZR_le in Hlow. rewrite <- bpow_IZR in Hlow by exact Hd.
  assert (H : (bpow (Z.pos (digits2_pos p) - 1 + e) < bpow k)%R).
  { rewrite bpow_add. unfold F2R in Hlt. pose proof (bpow_pos e). nra. }
  apply bpow_lt_inv in H. lia.
Qed.

Lemma fexp_le (x k : Z) :
  x <= k -> -1074 <= k - 53 -> fexp prec emax x <= k - 53.
Proof. unfold fexp, SpecFloat.emin, prec, emax. lia. Qed.

(** An exponent is small when the value is. *)
Lemma exponent_from_value (p : positive) (e k : Z) :
  (F2R (Z.pos p) e < bpow k)%R -> e < k.
Proof.
  intros Hlt. apply bpow_lt_inv.
  unfold F2R in Hlt. pose proof (bpow_pos e).
  pose proof (IZR_le 1 (Z.pos p) ltac:(lia)). nra.
Qed.

Lemma hundred_value : F2R 7036874417766400 (-46) = 100%R.
Proof.
  unfold F2R. change 7036874417766400 with (100 * 2 ^ 46).
  rewrite mult_IZR, <- bpow_IZR by lia.
  pose proof (bpow_add 46 (-46)) as H.
  change (46 + -46) with 0 in H. change (bpow 0) with 1%R in H. nra.
Qed.

(** Multiplying by [100] a number that is at most [1 + 2^-52]. *)
Lemma mul_hundred_bound (m : positive) (e : Z) :
  (F2R (Z.pos m) e <= 1 + bpow (-52))%R ->
  mul (S754_finite false m e) hundred = S754_zero false \/
  exists m' e',
    mul (S754_finite false m e) hundred = S754_finite false m' e' /\
    (F2R (Z.pos m') e' < 201 / 2)%R.
Proof.
  intros Hq. unfold mul, hundred, SFmul. cbn [xorb].
  pose proof (bpow_small (-52) ltac:(lia)) as H52.
  assert (He : e < 1).
  { apply (exponent_from_value m). rewrite bpow_1. lra. }
  assert (Hprod : F2R (Z.pos (m * 7036874417766400)) (e + -46)
                  = (F2R (Z.pos m) e * 100)%R).
  { rewrite <- hundred_value. unfold F2R.
    rewrite Pos2Z.inj_mul, mult_IZR, bpow_add. ring. }
  assert (Hdig : Zdigits2 (Z.pos (m * 7036874417766400)) + (e + -46) <= 7).
  { apply digits_from_value; [lia| |lia]. rewrite Hprod, bpow_7. lra. }
  pose proof (fexp_le _ 7 Hdig ltac:(lia)) as Hfexp.
  pose proof (bpow_small
    (Z.max (e + -46) (fexp prec emax (Zdigits2 (Z.pos (m * 7036874417766400)) + (e + -46))))
    ltac:(lia)) as Hulp.
  pose proof bpow_top as Htop.
  destruct (binary_round_aux_bound (Z.pos (m * 7036874417766400)) (e + -46) loc_Exact)
    as [Hz|(m' & e' & Hf & Hb)].
  - lia.
  - rewrite Hprod. lra.
  - left. exact Hz.
  - right. exists m', e'. split; [exact Hf|]. rewrite Hprod in Hb. lra.
Qed.

Lemma F2R_lt_digits (p : positive) (e : Z) :
  (F2R (Z.pos p) e < bpow (Z.pos (digits2_pos p) + e))%R.
Proof.
  unfold F2R. rewrite bpow_add, (bpow_IZR (Z.pos (digits2_pos p))) by lia.
  pose proof (IZR_lt _ _ (digits_upper p)). pose proof (bpow_pos e). nra.
Qed.

(** The quotient computed by the division, before rounding, is at most the
    quotient of the values; here, at most [1]. *)
Lemma div_core_bound (mu mt : positive) (eu et : Z) :
  (F2R (Z.pos mu) eu <= F2R (Z.pos mt) et)%R ->
  let '(mz, ez, lz) := SFdiv_core_binary prec emax (Z.pos mu) eu (Z.pos mt) et in
  0 <= mz /\ ez <= -53 /\ (F2R mz ez <= 1)%R.
Proof.
  intros Hle. unfold SFdiv_core_binary.
  cbn [Zdigits2].
  set (d1 := Z.pos (digits2_pos mu)). set (d2 := Z.pos (digits2_pos mt)).
  assert (Hdd : d1 + eu <= d2 + et).
  { pose proof (F2R_lt_digits mt et) as Hup. fold d2 in Hup.
    assert (Hlt : (F2R (Z.pos mu) eu < bpow (d2 + et))%R) by lra.
    pose proof (exponent_from_value mu eu _ Hlt).
    apply (digits_from_value (Z.pos mu) eu (d2 + et)); [lia|exact Hlt|lia]. }
  set (e' := Z.min (fexp prec emax (d1 + eu - (d2 + et))) (eu - et)).
  assert (He' : e' <= -53 /\ e' <= eu - et).
  { pose proof (fexp_le (d1 + eu - (d2 + et)) 0 ltac:(lia) ltac:(lia)). lia. }
  set (s := eu - et - e'). assert (Hs : 0 <= s) by (unfold s; lia).
  set (m' := match s with
             | 0 => Z.pos mu
             | Z.pos _ => Z.shiftl (Z.pos mu) s
             | Z.neg _ => 0
             end).
  assert (Hm' : m' = Z.pos mu * 2 ^ s).
  { unfold m'. destruct s as [|p|p] eqn:E.
    - rewrite Z.mul_1_r. reflexivity.
    - apply Z.shiftl_mul_pow2. lia.
    - lia. }
  pose proof (Z_div_mod m' (Z.pos mt) ltac:(lia)) as Hdiv.
  destruct (Z.div_eucl m' (Z.pos mt)) as [q r].
  destruct Hdiv as [Hq Hr].
  assert (Hpow : 0 < 2 ^ s) by (apply Z.pow_pos_nonneg; lia).
  assert (Hq0 : 0 <= q) by nia.
  split; [exact Hq0|]. split; [lia|].
  assert (Hqm : q * Z.pos mt <= Z.pos mu * 2 ^ s) by lia.
  apply IZR_le in Hqm. rewrite !mult_IZR, <- (bpow_IZR s Hs) in Hqm.
  assert (Heu : bpow eu = (bpow s * bpow e' * bpow et)%R).
  { rewrite <- !bpow_add. f_equal. unfold s. lia. }
  unfold F2R in *. rewrite Heu in Hle.
  pose proof (bpow_pos s) as Ps. pose proof (bpow_pos e') as Pe.
  pose proof (bpow_pos et) as Pt.
  pose proof (IZR_le 1 (Z.pos mt) ltac:(lia)) as Pc.
  pose proof (IZR_le 0 q Hq0) as Pq.
  set (a := IZR q) in *. set (b := bpow e') in *. set (c := IZR (Z.pos mt)) in *.
  set (d := IZR (Z.pos mu)) in *. set (S := bpow s) in *. set (T := bpow et) in *.
  assert (H1 : (d * S * b <= c)%R).
  { apply (Rmult_le_reg_r T); [exact Pt|]. lra. }
  assert (H2 : (a * c * b <= d * S * b)%R).
  { apply Rmult_le_compat_r; lra. }
  apply (Rmult_le_reg_r c); [lra|]. lra.
Qed.

(** Dividing a positive number by one that is at least as large. *)
Lemma div_bound (mu mt : positive) (eu et : Z) :
  (F2R (Z.pos mu) eu <= F2R (Z.pos mt) et)%R ->
  div (S754_finite false mu eu) (S754_finite false mt et) = S754_zero false \/
  exists m e,
    div (S754_finite false mu eu) (S754_finite false mt et) = S754_finite false m e /\
    (F2R (Z.pos m) e <= 1 + bpow (-52))%R.
Proof.
  intros Hle. unfold div, SFdiv. cbn [xorb].
  pose proof (div_core_bound mu mt eu et Hle) as Hcore.
  destruct (SFdiv_core_binary prec emax (Z.pos mu) eu (Z.pos mt) et) as [[mz ez] lz].
  destruct Hcore as (Hmz & Hez & Hval).
  assert (Hdig : Zdigits2 mz + ez <= 1).
  { apply digits_from_value; [exact Hmz| |lia]. rewrite bpow_1. lra. }
  pose proof (fexp_le _ 1 Hdig ltac:(lia)) as Hfexp.
  pose proof (bpow_le (Z.max ez (fexp prec emax (Zdigits2 mz + ez))) (-52) ltac:(lia))
    as Hulp.
  pose proof (bpow_small (-52) ltac:(lia)) as H52.
  pose proof bpow_top as Htop.
  destruct (binary_round_aux_bound mz ez lz) as [Hz|(m & e & Hf & Hb)].
  - exact Hmz.
  - lra.
  - left. exact Hz.
  - right. exists m, e. split; [exact Hf|]. lra.
Qed.

Lemma canonical_exponent (m : positive) (e : Z) :
  SpecFloat.bounded prec emax m e = true ->
  e = Z.max (Z.pos (digits2_pos m) + e - 53) (-1074).
Proof.
  unfold SpecFloat.bounded, canonical_mantissa. intros H.
  apply andb_true_iff in H as [H _]. apply Z.eqb_eq in H.
  unfold fexp, SpecFloat.emin, prec, emax in H. lia.
Qed.

(** On numbers in the form binary64 stores them, [<=] is the order of the
    values. *)
Lemma le_F2R (mu mt : positive) (eu et : Z) :
  SpecFloat.bounded prec emax mu eu = true ->
  SpecFloat.bounded prec emax mt et = true ->
  le (S754_finite false mu eu) (S754_finite false mt et) = true ->
  (F2R (Z.pos mu) eu <= F2R (Z.pos mt) et)%R.
Proof.
  intros Hu Ht. apply canonical_exponent in Hu, Ht.
  unfold le, SFleb, SFcompare.
  destruct (Z.compare_spec eu et) as [->|Hlt|Hgt].
  - change (Pos.compare_cont Eq mu mt) with (Pos.compare mu mt).
    destruct (Pos.compare_spec mu mt) as [->|Hm|Hm]; intros H; try discriminate H.
    + lra.
    + apply F2R_le. lia.
  - intros _.
    assert (Hdu : Z.pos (digits2_pos mu) <= 53) by lia.
    assert (Hdt : Z.pos (digits2_pos mt) = 53) by lia.
    pose proof (digits_upper mu) as Hup.
    pose proof (digits_lower mt) as Hlow. rewrite Hdt in Hlow.
    change (53 - 1) with 52 in Hlow.
    assert (Hup' : Z.pos mu < 2 ^ 53).
    { eapply Z.lt_le_trans; [exact Hup|]. apply Z.pow_le_mono_r; lia. }
    apply IZR_lt in Hup'. apply IZR_le in Hlow.
    rewrite <- bpow_IZR in Hup', Hlow by lia.
    pose proof (bpow_le (53 + eu) (52 + et) ltac:(lia)) as Hmono.
    rewrite !bpow_add in Hmono.
    unfold F2R. pose proof (bpow_pos eu) as Pu. pose proof (bpow_pos et) as Pt.
    assert (H1 : (IZR (Z.pos mu) * bpow eu <= bpow 53 * bpow eu)%R)
      by (apply Rmult_le_compat_r; lra).
    assert (H2 : (bpow 52 * bpow et <= IZR (Z.pos mt) * bpow et)%R)
      by (apply Rmult_le_compat_r; lra).
    lra.
  - discriminate.
Qed.

(** [binary_normalize] is exact on the integers from 0 to 100. *)
Lemma to_Z_small (n : Z) :
  0 <= n <= 100 -> to_Z (binary_normalize prec emax n 0 false) = Some n.
Proof.
  intros Hn.
  assert (Hall : forallb
            (fun k => match to_Z (binary_normalize prec emax (Z.of_nat k) 0 false) with
                      | Some v => Z.eqb v (Z.of_nat k)
                      | None => false
                      end) (seq 0 101) = true) by (vm_compute; reflexivity).
  rewrite forallb_forall in Hall.
  specialize (Hall (Z.to_nat n)).
  rewrite Z2Nat.id in Hall by lia.
  assert (Hin : In (Z.to_nat n) (seq 0 101)) by (apply in_seq; lia).
  specialize (Hall Hin).
  destruct (to_Z (binary_normalize prec emax n 0 false)) as [v|]; [|discriminate].
  apply Z.eqb_eq in Hall. congruence.
Qed.

(** [Math.round] of a positive number below [100.5]. *)
Lemma round_small (m : positive) (e : Z) :
  (F2R (Z.pos m) e < 201 / 2)%R ->
  exists n, to_Z (round (S754_finite false m e)) = Some n /\ 0 <= n <= 100.
Proof.
  intros Hlt. unfold round, F2R in *.
  destruct (Z.leb_spec 0 e) as [He|He].
  - unfold to_Z. apply Z.leb_le in He as He'. rewrite He'.
    eexists. split; [reflexivity|].
    assert (Hpow : 0 < 2 ^ e) by (apply Z.pow_pos_nonneg; lia).
    split; [nia|].
    rewrite (bpow_IZR e He), <- mult_IZR in Hlt.
    assert (H : (IZR (Z.pos m * 2 ^ e) < IZR 101)%R) by lra.
    apply lt_IZR in H. lia.
  - set (n := (2 * Z.pos m + 2 ^ (- e)) / 2 ^ (1 - e)).
    assert (Hpow : 0 < 2 ^ (- e)) by (apply Z.pow_pos_nonneg; lia).
    assert (Hpow' : 2 ^ (1 - e) = 2 * 2 ^ (- e)).
    { replace (1 - e) with (Z.succ (- e)) by lia. apply Z.pow_succ_r. lia. }
    assert (Hm : 2 * Z.pos m < 201 * 2 ^ (- e)).
    { apply lt_IZR. rewrite !mult_IZR, <- (bpow_IZR (- e)) by lia.
      pose proof (bpow_add e (- e)) as Hinv.
      replace (e + - e) with 0 in Hinv by lia. change (bpow 0) with 1%R in Hinv.
      pose proof (bpow_pos e). pose proof (bpow_pos (- e)).
      assert (Hx : (IZR (Z.pos m) * (bpow e * bpow (- e)) < 201 / 2 * bpow (- e))%R).
      { rewrite <- Rmult_assoc. apply Rmult_lt_compat_r; assumption. }
      rewrite <- Hinv in Hx. lra. }
    assert (Hn : 0 <= n <= 100).
    { unfold n. split.
      - apply Z.div_pos; lia.
      - apply Z.lt_succ_r. apply Z.div_lt_upper_bound; lia. }
    exists n. split; [apply to_Z_small; exact Hn | exact Hn].
Qed.

End FloatFacts.

(** [Math.round((57 / 200) * 100)] is [28]: the quotient is rounded below
    [0.285] and its product by [100] below [28.5]. *)
Example memory_percent_57_of_200 :
  Number.to_Z (Metrics.memory_percent (Number.of_Z 200) (Number.of_Z 57)) = Some 28%Z.
Proof. vm_compute. reflexivity. Qed.

(** C6: for a total and a used amount that are non-negative numbers (finite,
    as binary64 stores them), the percentage is the one the specification
    words: [0] when the total is [0], and otherwise
    [Math.round((used / total) * 100)] in the arithmetic of JavaScript
    numbers; and when [used <= total] it is an integer between 0 and 100.
    The snapshot's [percent] is that function of its [total] and [used]. *)
Theorem memory_percent_is_bounded_round (totalMemory usedMemory : Number.number) :
  Number.finite_nonneg totalMemory = true ->
  Number.finite_nonneg usedMemory = true ->
  Metrics.memory_percent totalMemory usedMemory
    = Metrics.spec_memory_percent totalMemory usedMemory /\
  (SFeqb totalMemory Number.zero = true ->
   Metrics.memory_percent totalMemory usedMemory = Number.zero) /\
  (SFeqb totalMemory Number.zero = false ->
   Metrics.memory_percent totalMemory usedMemory
     = Number.round (Number.mul (Number.div usedMemory totalMemory) Number.hundred)) /\
  (Number.le usedMemory totalMemory = true ->
   exists n, Number.to_Z (Metrics.memory_percent totalMemory usedMemory) = Some n /\
             (0 <= n <= 100)%Z) /\
  (forall parseFloat parseInt trim info cs cpu_exec disk_exec snap,
     Metrics.metrics parseFloat parseInt trim (Some info) (Some cs) cpu_exec disk_exec
       = Metrics.Json snap ->
     Metrics.percent (Metrics.memory snap)
       = Metrics.memory_percent (Metrics.total (Metrics.memory snap))
           (Metrics.used (Metrics.memory snap))).
Proof.
  intros Ht Hu.
  assert (Hsnap : forall parseFloat parseInt trim info cs cpu_exec disk_exec snap,
     Metrics.metrics parseFloat parseInt trim (Some info) (Some cs) cpu_exec disk_exec
       = Metrics.Json snap ->
     Metrics.percent (Metrics.memory snap)
       = Metrics.memory_percent (Metrics.total (Metrics.memory snap))
           (Metrics.used (Metrics.memory snap))).
  { intros pf pi tr info cs cpu_exec disk_exec snap H.
    unfold Metrics.metrics in H. injection H as <-. reflexivity. }
  destruct totalMemory as [st|si| |[|] mt et]; try discriminate Ht.
  - split_and!.
    + destruct st; reflexivity.
    + reflexivity.
    + destruct st; discriminate.
    + intros _. exists 0%Z. split; [reflexivity | lia].
    + exact Hsnap.
  - simpl in Ht.
    assert (Hpct : Metrics.memory_percent (S754_finite false mt et) usedMemory
                   = Number.round
                       (Number.mul (Number.div usedMemory (S754_finite false mt et))
                          Number.hundred)) by reflexivity.
    split_and!; [reflexivity | discriminate | reflexivity | | exact Hsnap].
    intros Hle. rewrite Hpct.
    destruct usedMemory as [su|si| |[|] mu eu]; try discriminate Hu.
    + exists 0%Z. split; [destruct su; reflexivity | lia].
    + simpl in Hu.
      pose proof (le_F2R mu mt eu et Hu Ht Hle) as Hval.
      destruct (div_bound mu mt eu et Hval) as [->|(mq & eq & -> & Hq)].
      * exists 0%Z. split; [reflexivity | lia].
      * destruct (mul_hundred_bound mq eq Hq) as [->|(mp & ep & -> & Hp)].
        -- exists 0%Z. split; [reflexivity | lia].
        -- apply round_small. exact Hp.
Qed.

(** The theorem at 57 used out of 200. *)
Lemma memory_percent_is_bounded_round_57_of_200 :
  Number.finite_nonneg (Number.of_Z 200) = true /\
  Number.finite_nonneg (Number.of_Z 57) = true /\
  Metrics.memory_percent (Number.of_Z 200) (Number.of_Z 57)
    = Metrics.spec_memory_percent (Number.of_Z 200) (Number.of_Z 57) /\
  (SFeqb (Number.of_Z 200) Number.zero = true ->
   Metrics.memory_percent (Number.of_Z 200) (Number.of_Z 57) = Number.zero) /\
  (SFeqb (Number.of_Z 200) Number.zero = false ->
   Metrics.memory_percent (Number.of_Z 200) (Number.of_Z 57)
     = Number.round
         (Number.mul (Number.div (Number.of_Z 57) (Number.of_Z 200)) Number.hundred)) /\
  (Number.le (Number.of_Z 57) (Number.of_Z 200) = true ->
   exists n, Number.to_Z (Metrics.memory_percent (Number.of_Z 200) (Number.of_Z 57))
               = Some n /\ (0 <= n <= 100)%Z) /\
  (forall parseFloat parseInt trim info cs cpu_exec disk_exec snap,
     Metrics.metrics parseFloat parseInt trim (Some info) (Some cs) cpu_exec disk_exec
       = Metrics.Json snap ->
     Metrics.percent (Metrics.memory snap)
       = Metrics.memory_percent (Metrics.total (Metrics.memory snap))
           (Metrics.used (Metrics.memory snap))).
Proof.
  assert (H200 : Number.finite_nonneg (Number.of_Z 200) = true) by reflexivity.
  assert (H57 : Number.finite_nonneg (Number.of_Z 57) = true) by reflexivity.
  split; [exact H200|]. split; [exact H57|].
  exact (memory_percent_is_bounded_round (Number.of_Z 200) (Number.of_Z 57) H200 H57).
Defined.

(** * Further properties *)

(** ** Log hub: what every reachable hub satisfies *)

Section HubInvariants.

Import LogHub.

Lemma set_ready_listener (st : readyState) (c c' : nat) (h : Hub) :
  listener_of (set_ready st c h) c' = listener_of h c'.
Proof.
  unfold set_ready, listener_of, set_sockets. simpl.
  destruct (sockets h !! c) as [s|] eqn:Hs; [|reflexivity].
  destruct (decide (c = c')) as [<-|Hne].
  - rewrite lookup_insert_eq, Hs. reflexivity.
  - rewrite lookup_insert_ne by exact Hne. reflexivity.
Qed.

Lemma set_ready_other (st : readyState) (c c' : nat) (h : Hub) :
  c <> c' -> readyState_of (set_ready st c h) c' = readyState_of h c'.
Proof.
  intros Hne. unfold set_ready, readyState_of, set_sockets. simpl.
  destruct (sockets h !! c) as [s|]; [|reflexivity].
  rewrite lookup_insert_ne by exact Hne. reflexivity.
Qed.

Lemma set_ready_self (st : readyState) (c : nat) (h : Hub) :
  is_Some (sockets h !! c) -> readyState_of (set_ready st c h) c = st.
Proof.
  intros [s Hs]. unfold set_ready, readyState_of, set_sockets. simpl.
  rewrite Hs, lookup_insert_eq. reflexivity.
Qed.

Lemma unsubscribe_listener (appId : string) (c c' : nat) (h : Hub) :
  listener_of (unsubscribe appId c h) c' = listener_of h c'.
Proof. unfold listener_of. rewrite unsubscribe_sockets. reflexivity. Qed.

Lemma unsubscribe_state (appId : string) (c c' : nat) (h : Hub) :
  readyState_of (unsubscribe appId c h) c' = readyState_of h c'.
Proof. unfold readyState_of. rewrite unsubscribe_sockets. reflexivity. Qed.

Lemma listener_is_socket (h : Hub) (c : nat) (appId : string) :
  listener_of h c = Some appId ->
  exists s, sockets h !! c = Some s /\ close_listener s = Some appId.
Proof.
  unfold listener_of. destruct (sockets h !! c) as [s|]; [|discriminate].
  intros H. exists s. split; [reflexivity | exact H].
Qed.

Lemma close_coherent (c0 : nat) (h : Hub) : coherent h -> coherent (ws_close c0 h).
Proof.
  intros (Hwf & Hlis & Hst).
  assert (Hwf' : well_formed (ws_close c0 h)).
  { exact (after_well_formed (Close c0) h Hwf). }
  split; [exact Hwf'|].
  unfold ws_close in *. destruct (sockets h !! c0) as [s|] eqn:Hs; [|split; assumption].
  assert (Hsubs : forall subj, subscribers_of (set_ready CLOSED c0 h) subj = subscribers_of h subj)
    by reflexivity.
  destruct (close_listener s) as [a|] eqn:Ha.
  - split.
    + intros c subj Hc. rewrite unsubscribe_listener, set_ready_listener.
      apply Hlis. rewrite <- Hsubs.
      exact (elem_of_sublist _ _ _ Hc (unsubscribe_subscribers a subj c0 _)).
    + intros c subj Hc. rewrite unsubscribe_state.
      pose proof (elem_of_sublist _ _ _ Hc (unsubscribe_subscribers a subj c0 _)) as Hc'.
      rewrite Hsubs in Hc'.
      destruct (decide (c0 = c)) as [<-|Hne].
      * exfalso. pose proof (Hlis _ _ Hc') as Hl.
        unfold listener_of in Hl. rewrite Hs, Ha in Hl. injection Hl as <-.
        revert Hc. apply unsubscribe_removes.
        intros subj. exact (Hwf subj).
      * rewrite set_ready_other by exact Hne. apply Hst with subj. exact Hc'.
  - split.
    + intros c subj Hc. rewrite set_ready_listener. apply Hlis. exact Hc.
    + intros c subj Hc. destruct (decide (c0 = c)) as [<-|Hne].
      * exfalso. pose proof (Hlis _ _ Hc) as Hl.
        unfold listener_of in Hl. rewrite Hs, Ha in Hl. discriminate.
      * rewrite set_ready_other by exact Hne. apply Hst with subj. exact Hc.
Qed.

Lemma after_coherent (a : action) (h : Hub) : coherent h -> coherent (after a h).
Proof.
  intros Hco. pose proof Hco as (Hwf & Hlis & Hst).
  destruct a as [pathname appId buildId|c0|c0|now appId log|appId lines|appId].
  - split; [exact (after_well_formed _ h Hwf)|].
    destruct (upgrade_cases pathname appId buildId h) as [E|[E|(a & _ & E)]];
      rewrite E; clear E.
    + split; assumption.
    + assert (Hold : forall c subj,
                c ∈ subscribers_of h subj -> sockets
                  {| logSubscribers := logSubscribers h; buildLogs := buildLogs h;
                     sockets := <[accepted h := {| ready := OPEN; sent := [];
                                                   close_listener := None |}]> (sockets h);
                     accepted := Datatypes.S (accepted h) |} !! c = sockets h !! c).
      { intros c subj Hc. simpl. apply lookup_insert_ne.
        destruct (Hwf subj) as [_ Hall]. rewrite Forall_forall in Hall.
        specialize (Hall c Hc). lia. }
      split; intros c subj Hc.
      * unfold listener_of. rewrite (Hold c subj Hc). exact (Hlis c subj Hc).
      * unfold readyState_of. rewrite (Hold c subj Hc). exact (Hst c subj Hc).
    + assert (Hcases : forall c subj,
                c ∈ subscribers_of
                  {| logSubscribers :=
                       <[a := default [] (logSubscribers h !! a) ++ [accepted h]]>
                         (logSubscribers h);
                     buildLogs := buildLogs h;
                     sockets := <[accepted h := {| ready := OPEN;
                                                   sent := replay_for buildId h;
                                                   close_listener := Some a |}]> (sockets h);
                     accepted := Datatypes.S (accepted h) |} subj ->
                (c <> accepted h /\ c ∈ subscribers_of h subj) \/ (c = accepted h /\ subj = a)).
      { intros c subj. unfold subscribers_of. simpl.
        destruct (decide (a = subj)) as [<-|Hne].
        - rewrite lookup_insert_eq. simpl. intros Hc.
          apply elem_of_app in Hc as [Hc|Hc].
          + left. split; [|exact Hc].
            destruct (Hwf a) as [_ Hall]. rewrite Forall_forall in Hall.
            specialize (Hall c Hc). lia.
          + right. apply list_elem_of_singleton in Hc. split; [exact Hc | reflexivity].
        - rewrite lookup_insert_ne by exact Hne. intros Hc. left. split; [|exact Hc].
          destruct (Hwf subj) as [_ Hall]. rewrite Forall_forall in Hall.
          specialize (Hall c Hc). lia. }
      split; intros c subj Hc; destruct (Hcases c subj Hc) as [[Hne Hc']|[-> ->]].
      * unfold listener_of. simpl. rewrite lookup_insert_ne by congruence.
        exact (Hlis c subj Hc').
      * unfold listener_of. simpl. rewrite lookup_insert_eq. reflexivity.
      * unfold readyState_of. simpl. rewrite lookup_insert_ne by congruence.
        exact (Hst c subj Hc').
      * unfold readyState_of. simpl. rewrite lookup_insert_eq. discriminate.
  - split; [exact (after_well_formed _ h Hwf)|]. unfold after. simpl. split.
    + intros c subj Hc. rewrite set_ready_listener. exact (Hlis c subj Hc).
    + intros c subj Hc. destruct (decide (c0 = c)) as [<-|Hne].
      * destruct (listener_is_socket h c0 subj (Hlis c0 subj Hc)) as (s & Hs & _).
        rewrite set_ready_self by (exists s; exact Hs). discriminate.
      * rewrite set_ready_other by exact Hne. exact (Hst c subj Hc).
  - exact (close_coherent c0 h Hco).
  - split; [exact (after_well_formed _ h Hwf)|]. unfold after. simpl.
    destruct (publish_returns now appId log h) as (h' & -> & E1 & _ & _ & E4 & E5 & _).
    simpl. unfold subscribers_of. rewrite E1. split; intros c subj Hc.
    + rewrite E5. exact (Hlis c subj Hc).
    + rewrite E4. exact (Hst c subj Hc).
  - split; [exact (after_well_formed _ h Hwf)|]. split; assumption.
  - split; [exact (after_well_formed _ h Hwf)|]. split; assumption.
Qed.

Lemma run_coherent (acts : list action) (h : Hub) : coherent h -> coherent (run acts h).
Proof.
  revert h. induction acts as [|a acts IH]; intros h Hco; [exact Hco|].
  simpl. apply IH. apply after_coherent. exact Hco.
Qed.

Lemma reachable_coherent (h : Hub) : reachable h -> coherent h.
Proof.
  intros [acts ->]. apply run_coherent. split; [apply empty_hub_well_formed|].
  split; intros c subj Hc; inversion Hc.
Qed.

End HubInvariants.

(** X1: in every hub the server reaches, no subscriber list holds a socket
    twice, and every socket in a list is one the server has accepted. *)
Theorem subscriber_lists_have_no_repetition (h : LogHub.Hub) (appId : string) :
  LogHub.reachable h ->
  NoDup (LogHub.subscribers_of h appId) /\
  Forall (fun c => c < LogHub.accepted h) (LogHub.subscribers_of h appId).
Proof. intros Hreach. exact (reachable_well_formed h Hreach appId). Qed.

(** The theorem at the hub with one subscriber of [app]. *)
Lemma subscriber_lists_have_no_repetition_app :
  LogHub.reachable Samples.one_subscriber /\
  NoDup (LogHub.subscribers_of Samples.one_subscriber "app") /\
  Forall (fun c => c < LogHub.accepted Samples.one_subscriber)
    (LogHub.subscribers_of Samples.one_subscriber "app").
Proof.
  assert (Hreach : LogHub.reachable Samples.one_subscriber).
  { exists [LogHub.Upgrade "/ws/logs" (Some "app") None]. reflexivity. }
  split; [exact Hreach|].
  exact (subscriber_lists_have_no_repetition Samples.one_subscriber "app" Hreach).
Defined.

(** X2: in every hub the server reaches, a socket subscribes to at most one
    subject: the one its ['close'] listener holds.  So the listener, when
    it runs, looks in the only list the socket can be in. *)
Theorem socket_has_one_subject (h : LogHub.Hub) (c : nat) (appId other : string) :
  LogHub.reachable h ->
  c ∈ LogHub.subscribers_of h appId ->
  LogHub.listener_of h c = Some appId /\
  (c ∈ LogHub.subscribers_of h other -> other = appId).
Proof.
  intros Hreach Hc. destruct (reachable_coherent h Hreach) as (_ & Hlis & _).
  split; [exact (Hlis c appId Hc)|].
  intros Hother. pose proof (Hlis c appId Hc). pose proof (Hlis c other Hother).
  congruence.
Qed.

(** The theorem at the hub with one subscriber of [app]. *)
Lemma socket_has_one_subject_app :
  LogHub.reachable Samples.one_subscriber /\
  0 ∈ LogHub.subscribers_of Samples.one_subscriber "app" /\
  LogHub.listener_of Samples.one_subscriber 0 = Some "app" /\
  (0 ∈ LogHub.subscribers_of Samples.one_subscriber "other" -> "other" = "app").
Proof.
  assert (Hreach : LogHub.reachable Samples.one_subscriber).
  { exists [LogHub.Upgrade "/ws/logs" (Some "app") None]. reflexivity. }
  assert (Hin : 0 ∈ LogHub.subscribers_of Samples.one_subscriber "app").
  { vm_compute. apply list_elem_of_here. }
  split; [exact Hreach|]. split; [exact Hin|].
  exact (socket_has_one_subject Samples.one_subscriber 0 "app" "other" Hreach Hin).
Defined.

(** X3: in every hub the server reaches, no subscriber list holds a closed
    socket: the ['close'] event of a socket removes it from the one list it
    is in.  The test of [readyState] in [broadcastLogs] only ever passes
    over sockets that are connecting or closing. *)
Theorem no_closed_socket_is_listed (h : LogHub.Hub) (c : nat) (appId : string) :
  LogHub.reachable h ->
  c ∈ LogHub.subscribers_of h appId ->
  LogHub.readyState_of h c <> LogHub.CLOSED.
Proof.
  intros Hreach Hc. destruct (reachable_coherent h Hreach) as (_ & _ & Hst).
  exact (Hst c appId Hc).
Qed.

(** The theorem at the hub with one subscriber of [app]. *)
Lemma no_closed_socket_is_listed_app :
  LogHub.reachable Samples.one_subscriber /\
  0 ∈ LogHub.subscribers_of Samples.one_subscriber "app" /\
  LogHub.readyState_of Samples.one_subscriber 0 <> LogHub.CLOSED.
Proof.
  assert (Hreach : LogHub.reachable Samples.one_subscriber).
  { exists [LogHub.Upgrade "/ws/logs" (Some "app") None]. reflexivity. }
  assert (Hin : 0 ∈ LogHub.subscribers_of Samples.one_subscriber "app").
  { vm_compute. apply list_elem_of_here. }
  split; [exact Hreach|]. split; [exact Hin|].
  exact (no_closed_socket_is_listed Samples.one_subscriber 0 "app" Hreach Hin).
Defined.

Section HubRoundTrips.

Import LogHub.

Lemma indexOf_last (c : nat) (l : list nat) :
  c ∉ l -> indexOf c (l ++ [c]) = Z.of_nat (length l).
Proof.
  induction l as [|x rest IH]; intros Hc; simpl.
  - rewrite Nat.eqb_refl. reflexivity.
  - apply not_elem_of_cons in Hc as [Hne Hrest].
    destruct (Nat.eqb_spec x c) as [->|_]; [contradiction|].
    rewrite IH by exact Hrest.
    destruct (Z.ltb_spec (Z.of_nat (length rest)) 0); lia.
Qed.

Lemma delete_last (c : nat) (l : list nat) : delete (length l) (l ++ [c]) = l.
Proof.
  induction l as [|x rest IH]; simpl; [reflexivity|]. rewrite IH. reflexivity.
Qed.

(** The listener of the last subscriber of a list takes exactly it away. *)
Lemma unsubscribe_last (a : string) (c : nat) (old : list nat) (h : Hub) :
  logSubscribers h !! a = Some (old ++ [c]) -> c ∉ old ->
  logSubscribers (unsubscribe a c h) = <[a := old]> (logSubscribers h).
Proof.
  intros Hl Hc. unfold unsubscribe. rewrite Hl, indexOf_last by exact Hc.
  destruct (Z.ltb_spec (-1) (Z.of_nat (length old))) as [_|Hneg]; [|lia].
  simpl. rewrite Nat2Z.id, delete_last. reflexivity.
Qed.

(** The entry of a subject in [logSubscribers] outlives every action. *)
Lemma after_keeps_keys (a : action) (h : Hub) (appId : string) :
  is_Some (logSubscribers h !! appId) ->
  is_Some (logSubscribers (after a h) !! appId).
Proof.
  intros Hkey.
  destruct a as [pathname a buildId|c0|c0|now a log|a lines|a].
  - destruct (upgrade_cases pathname a buildId h) as [E|[E|(a' & _ & E)]];
      rewrite E; clear E; simpl; try exact Hkey.
    destruct (decide (a' = appId)) as [<-|Hne].
    + rewrite lookup_insert_eq. eexists. reflexivity.
    + rewrite lookup_insert_ne by exact Hne. exact Hkey.
  - exact Hkey.
  - unfold after. simpl. unfold ws_close.
    destruct (sockets h !! c0) as [s|]; [|exact Hkey].
    destruct (close_listener s) as [a|]; [|exact Hkey].
    unfold unsubscribe. simpl.
    destruct (logSubscribers h !! a) as [l|] eqn:Hl; [|exact Hkey].
    destruct (_ <? _)%Z; [|exact Hkey]. simpl.
    destruct (decide (a = appId)) as [<-|Hne].
    + rewrite lookup_insert_eq. eexists. reflexivity.
    + rewrite lookup_insert_ne by exact Hne. exact Hkey.
  - unfold after. simpl.
    destruct (publish_returns now a log h) as (h' & -> & E1 & _).
    simpl. rewrite E1. exact Hkey.
  - exact Hkey.
  - exact Hkey.
Qed.

(** What an action does to the frames of a socket that is in no list. *)
Lemma after_unlisted (a : action) (h : Hub) (c : nat) :
  c < accepted h -> unlisted h c ->
  sent_of (after a h) c = sent_of h c /\ unlisted (after a h) c.
Proof.
  intros Hc Hout. split.
  - destruct a as [pathname a buildId|c0|c0|now a log|a lines|a].
    + destruct (upgrade_cases pathname a buildId h) as [E|[E|(a' & _ & E)]];
        rewrite E; clear E; try reflexivity;
        unfold sent_of; simpl; rewrite lookup_insert_ne by lia; reflexivity.
    + apply set_ready_sent.
    + apply ws_close_sent.
    + unfold after. simpl.
      destruct (publish_returns now a log h) as (h' & -> & _ & _ & _ & _ & _ & Hsent).
      simpl. rewrite Hsent, (occurrences_absent c _ (Hout a)).
      destruct (is_open h c); apply app_nil_r.
    + reflexivity.
    + reflexivity.
  - intros subj. destruct (after_effects a h) as (_ & Hsubs & _).
    destruct (Hsubs subj) as [Hsub|[Happ _]].
    + intros Hin. apply (Hout subj). exact (elem_of_sublist _ _ _ Hin Hsub).
    + rewrite Happ. intros Hin. apply elem_of_app in Hin as [Hin|Hin].
      * exact (Hout subj Hin).
      * apply list_elem_of_singleton in Hin. lia.
Qed.

Lemma run_unlisted (acts : list action) (h : Hub) (c : nat) :
  c < accepted h -> unlisted h c -> sent_of (run acts h) c = sent_of h c.
Proof.
  revert h. induction acts as [|a acts IH]; intros h Hc Hout; [reflexivity|].
  simpl. destruct (after_unlisted a h c Hc Hout) as [Hsent Hout'].
  destruct (after_effects a h) as (Hacc & _).
  rewrite IH by (lia || exact Hout'). exact Hsent.
Qed.

(** Lines published one after the other reach an open subscriber in that
    order. *)
Lemma run_publishes_frames (times : nat -> Z) (appId : string) (lines : list string)
  (h : Hub) (c : nat) :
  NoDup (subscribers_of h appId) -> c ∈ subscribers_of h appId -> is_open h c = true ->
  let h' := run (imap (fun i line => Publish (times i) appId line) lines) h in
  sent_of h' c = sent_of h c ++ imap (fun i line => live_frame (times i) line) lines /\
  logSubscribers h' = logSubscribers h /\ is_open h' c = true /\
  accepted h' = accepted h.
Proof.
  revert times h. induction lines as [|x rest IH]; intros times h Hnd Hc Hopen.
  - simpl. rewrite app_nil_r. repeat split. exact Hopen.
  - cbv zeta. cbn [imap run fold_left].
    fold (run (imap ((fun i line => Publish (times i) appId line) ∘ S) rest)
            (after (Publish (times 0) appId x) h)).
    assert (Hstep : exists h1, after (Publish (times 0) appId x) h = h1 /\
              logSubscribers h1 = logSubscribers h /\ accepted h1 = accepted h /\
              is_open h1 c = true /\
              sent_of h1 c = sent_of h c ++ [live_frame (times 0) x]).
    { unfold after. simpl.
      destruct (publish_returns (times 0) appId x h)
        as (h1 & -> & E1 & _ & E3 & E4 & _ & Hsent).
      exists h1. simpl. split; [reflexivity|]. split; [exact E1|]. split; [exact E3|].
      split.
      - unfold is_open in *. rewrite E4. exact Hopen.
      - rewrite Hsent, Hopen, (occurrences_once c _ Hnd Hc). reflexivity. }
    destruct Hstep as (h1 & -> & E1 & E3 & Hopen1 & Hsent1).
    assert (Hsubs1 : subscribers_of h1 appId = subscribers_of h appId).
    { unfold subscribers_of. rewrite E1. reflexivity. }
    destruct (IH (fun j => times (S j)) h1) as (F1 & F2 & F3 & F4).
    + rewrite Hsubs1. exact Hnd.
    + rewrite Hsubs1. exact Hc.
    + exact Hopen1.
    + split; [|split; [|split]].
      * etransitivity; [exact F1|]. rewrite Hsent1, <- app_assoc. reflexivity.
      * etransitivity; [exact F2 | exact E1].
      * exact F3.
      * etransitivity; [exact F4 | exact E3].
Qed.

End HubRoundTrips.

(** X4: in a hub the server reaches, an upgrade with a non-empty [appId]
    followed by the ['close'] event of the new socket leaves every
    subscriber list and every buffer as they were.  The subject keeps its
    entry in [logSubscribers], holding the list it had before, empty if it
    had none; the new socket ends closed. *)
Theorem connect_then_close_restores_lists
  (h : LogHub.Hub) (a : string) (buildId : option string) :
  LogHub.reachable h -> a <> "" ->
  (forall subj,
     LogHub.subscribers_of
       (LogHub.after (LogHub.Close (LogHub.accepted h))
          (LogHub.after (LogHub.Upgrade "/ws/logs" (Some a) buildId) h)) subj
     = LogHub.subscribers_of h subj) /\
  LogHub.buildLogs
    (LogHub.after (LogHub.Close (LogHub.accepted h))
       (LogHub.after (LogHub.Upgrade "/ws/logs" (Some a) buildId) h))
  = LogHub.buildLogs h /\
  LogHub.logSubscribers
    (LogHub.after (LogHub.Close (LogHub.accepted h))
       (LogHub.after (LogHub.Upgrade "/ws/logs" (Some a) buildId) h)) !! a
  = Some (LogHub.subscribers_of h a) /\
  LogHub.readyState_of
    (LogHub.after (LogHub.Close (LogHub.accepted h))
       (LogHub.after (LogHub.Upgrade "/ws/logs" (Some a) buildId) h))
    (LogHub.accepted h) = LogHub.CLOSED.
Proof.
  intros Hreach Ha.
  pose proof (reachable_well_formed h Hreach a) as [_ Hall].
  assert (Hfresh : LogHub.accepted h ∉ LogHub.subscribers_of h a).
  { intros Hin. rewrite Forall_forall in Hall. specialize (Hall _ Hin). lia. }
  assert (E1 : LogHub.after (LogHub.Upgrade "/ws/logs" (Some a) buildId) h =
    {| LogHub.logSubscribers :=
         <[a := LogHub.subscribers_of h a ++ [LogHub.accepted h]]> (LogHub.logSubscribers h);
       LogHub.buildLogs := LogHub.buildLogs h;
       LogHub.sockets :=
         <[LogHub.accepted h :=
             {| LogHub.ready := LogHub.OPEN; LogHub.sent := LogHub.replay_for buildId h;
                LogHub.close_listener := Some a |}]> (LogHub.sockets h);
       LogHub.accepted := S (LogHub.accepted h) |}).
  { unfold LogHub.after, LogHub.perform.
    rewrite (upgrade_subscribes a buildId h Ha). reflexivity. }
  rewrite E1. clear E1.
  match goal with
  | |- context [LogHub.after (LogHub.Close _) ?r] => set (h1 := r)
  end.
  set (hc := LogHub.set_ready LogHub.CLOSED (LogHub.accepted h) h1).
  assert (E2 : LogHub.after (LogHub.Close (LogHub.accepted h)) h1
               = LogHub.unsubscribe a (LogHub.accepted h) hc).
  { unfold LogHub.after, LogHub.perform, LogHub.modify, LogHub.ws_close. cbn [snd].
    subst hc h1. cbn [LogHub.sockets]. rewrite lookup_insert_eq. reflexivity. }
  rewrite E2. clear E2.
  assert (Hlist : LogHub.logSubscribers hc !! a
                  = Some (LogHub.subscribers_of h a ++ [LogHub.accepted h])).
  { subst hc h1. simpl. apply lookup_insert_eq. }
  pose proof (unsubscribe_last a (LogHub.accepted h) _ hc Hlist Hfresh) as Hun.
  assert (Hmap : LogHub.logSubscribers (LogHub.unsubscribe a (LogHub.accepted h) hc)
                 = <[a := LogHub.subscribers_of h a]> (LogHub.logSubscribers h)).
  { rewrite Hun. subst hc h1. simpl. apply insert_insert_eq. }
  split_and!.
  - intros subj. unfold LogHub.subscribers_of at 1. rewrite Hmap.
    destruct (decide (a = subj)) as [<-|Hne].
    + rewrite lookup_insert_eq. reflexivity.
    + rewrite lookup_insert_ne by exact Hne. reflexivity.
  - clear Hlist Hun Hmap.
    unfold LogHub.unsubscribe. destruct (LogHub.logSubscribers hc !! a); [|reflexivity].
    destruct (_ <? _)%Z; reflexivity.
  - rewrite Hmap. apply lookup_insert_eq.
  - rewrite unsubscribe_state. subst hc h1. apply set_ready_self.
    simpl. rewrite lookup_insert_eq. eexists. reflexivity.
Qed.

(** The theorem at the empty hub, for a subscriber of [app]. *)
Lemma connect_then_close_restores_lists_app :
  LogHub.reachable LogHub.empty_hub /\ "app" <> "" /\
  (forall subj,
     LogHub.subscribers_of
       (LogHub.after (LogHub.Close (LogHub.accepted LogHub.empty_hub))
          (LogHub.after (LogHub.Upgrade "/ws/logs" (Some "app") None) LogHub.empty_hub))
       subj
     = LogHub.subscribers_of LogHub.empty_hub subj) /\
  LogHub.buildLogs
    (LogHub.after (LogHub.Close (LogHub.accepted LogHub.empty_hub))
       (LogHub.after (LogHub.Upgrade "/ws/logs" (Some "app") None) LogHub.empty_hub))
  = LogHub.buildLogs LogHub.empty_hub /\
  LogHub.logSubscribers
    (LogHub.after (LogHub.Close (LogHub.accepted LogHub.empty_hub))
       (LogHub.after (LogHub.Upgrade "/ws/logs" (Some "app") None) LogHub.empty_hub))
    !! "app"
  = Some (LogHub.subscribers_of LogHub.empty_hub "app") /\
  LogHub.readyState_of
    (LogHub.after (LogHub.Close (LogHub.accepted LogHub.empty_hub))
       (LogHub.after (LogHub.Upgrade "/ws/logs" (Some "app") None) LogHub.empty_hub))
    (LogHub.accepted LogHub.empty_hub) = LogHub.CLOSED.
Proof.
  assert (Hreach : LogHub.reachable LogHub.empty_hub) by (exists []; reflexivity).
  assert (Hne : "app" <> "") by discriminate.
  split; [exact Hreach|]. split; [exact Hne|].
  exact (connect_then_close_restores_lists LogHub.empty_hub "app" None Hreach Hne).
Defined.

(** X5: [logSubscribers] never loses a key: whatever happens next, a subject
    that has an entry keeps one, even when its last subscriber has gone. *)
Theorem subject_entries_are_never_removed
  (acts : list LogHub.action) (h : LogHub.Hub) (appId : string) :
  is_Some (LogHub.logSubscribers h !! appId) ->
  is_Some (LogHub.logSubscribers (LogHub.run acts h) !! appId).
Proof.
  revert h. induction acts as [|a acts IH]; intros h Hkey; [exact Hkey|].
  simpl. apply IH. apply after_keeps_keys. exact Hkey.
Qed.

(** The theorem at the hub with one subscriber of [app], whose socket then
    closes. *)
Lemma subject_entries_are_never_removed_app :
  is_Some (LogHub.logSubscribers Samples.one_subscriber !! "app") /\
  is_Some (LogHub.logSubscribers
             (LogHub.run [LogHub.Close 0] Samples.one_subscriber) !! "app").
Proof.
  assert (Hkey : is_Some (LogHub.logSubscribers Samples.one_subscriber !! "app")).
  { exists [0]. reflexivity. }
  split; [exact Hkey|].
  exact (subject_entries_are_never_removed [LogHub.Close 0] Samples.one_subscriber
           "app" Hkey).
Defined.

(** X6: in a hub the server reaches, the socket of an upgrade on [/ws/logs]
    whose [appId] is absent or empty never receives a frame, whatever
    happens afterwards. *)
Theorem socket_without_appId_never_receives
  (h : LogHub.Hub) (appId buildId : option string) (acts : list LogHub.action) :
  LogHub.reachable h -> appId = None \/ appId = Some "" ->
  LogHub.sent_of
    (LogHub.run acts (LogHub.after (LogHub.Upgrade "/ws/logs" appId buildId) h))
    (LogHub.accepted h) = [].
Proof.
  intros Hreach HappId.
  pose proof (reachable_well_formed h Hreach) as Hwf.
  unfold LogHub.after, LogHub.perform.
  rewrite (upgrade_ignores appId buildId h HappId). cbn [snd].
  rewrite run_unlisted.
  - unfold LogHub.sent_of. simpl. rewrite lookup_insert_eq. reflexivity.
  - simpl. lia.
  - intros subj Hin. destruct (Hwf subj) as [_ Hall].
    rewrite Forall_forall in Hall.
    assert (Hlt : LogHub.accepted h < LogHub.accepted h) by (apply Hall; exact Hin).
    lia.
Qed.

(** The theorem at the hub with one subscriber of [app], for a second
    upgrade without [appId] followed by a publish on [app]. *)
Lemma socket_without_appId_never_receives_app :
  LogHub.reachable Samples.one_subscriber /\
  ((None : option string) = None \/ (None : option string) = Some "") /\
  LogHub.sent_of
    (LogHub.run [LogHub.Publish 0 "app" "line"]
       (LogHub.after (LogHub.Upgrade "/ws/logs" None (Some "app")) Samples.one_subscriber))
    (LogHub.accepted Samples.one_subscriber) = [].
Proof.
  assert (Hreach : LogHub.reachable Samples.one_subscriber).
  { exists [LogHub.Upgrade "/ws/logs" (Some "app") None]. reflexivity. }
  assert (Hnone : (None : option string) = None \/ (None : option string) = Some "")
    by (left; reflexivity).
  split; [exact Hreach|]. split; [exact Hnone|].
  exact (socket_without_appId_never_receives Samples.one_subscriber None (Some "app")
           [LogHub.Publish 0 "app" "line"] Hreach Hnone).
Defined.

(** X7: lines published one after the other on a subject reach each open
    subscriber of the subject as one live frame per line, in the order of
    publication, after the frames it already had; the buffer of the subject
    grows by the same lines in the same order. *)
Theorem publishes_arrive_in_order
  (times : nat -> Z) (appId : string) (lines : list string) (h : LogHub.Hub) (c : nat) :
  LogHub.reachable h ->
  c ∈ LogHub.subscribers_of h appId -> LogHub.is_open h c = true ->
  LogHub.sent_of
    (LogHub.run (imap (fun i line => LogHub.Publish (times i) appId line) lines) h) c
  = LogHub.sent_of h c ++ imap (fun i line => LogHub.live_frame (times i) line) lines /\
  default []
    (LogHub.buildLogs
       (LogHub.run (imap (fun i line => LogHub.Publish (times i) appId line) lines) h)
     !! appId)
  = default [] (LogHub.buildLogs h !! appId) ++ lines.
Proof.
  intros Hreach Hc Hopen.
  pose proof (reachable_well_formed h Hreach appId) as [Hnd _].
  split.
  - exact (proj1 (run_publishes_frames times appId lines h c Hnd Hc Hopen)).
  - destruct lines as [|x rest]; [simpl; rewrite app_nil_r; reflexivity|].
    cbn [imap LogHub.run fold_left].
    assert (Hfirst : LogHub.buildLogs (LogHub.after (LogHub.Publish (times 0) appId x) h)
                       !! appId
                     = Some (default [] (LogHub.buildLogs h !! appId) ++ [x])).
    { unfold LogHub.after. simpl.
      destruct (publish_returns (times 0) appId x h) as (h1 & -> & _ & E & _).
      simpl. rewrite E. apply lookup_insert_eq. }
    pose proof (run_publishes_buffer (fun j => times (S j)) appId rest _ _ Hfirst) as Hrest.
    unfold LogHub.run in Hrest. cbv beta in Hrest.
    match goal with
    | |- default [] (LogHub.buildLogs ?hh !! appId) = _ =>
        match type of Hrest with
        | LogHub.buildLogs ?hh' !! appId = _ => change hh with hh'
        end
    end.
    rewrite Hrest. simpl. rewrite <- app_assoc. reflexivity.
Qed.

(** The theorem at the hub with one subscriber of [app], for two lines. *)
Lemma publishes_arrive_in_order_app :
  LogHub.reachable Samples.one_subscriber /\
  0 ∈ LogHub.subscribers_of Samples.one_subscriber "app" /\
  LogHub.is_open Samples.one_subscriber 0 = true /\
  LogHub.sent_of
    (LogHub.run (imap (fun i line => LogHub.Publish (Z.of_nat i) "app" line)
                   ["first"; "second"]) Samples.one_subscriber) 0
  = LogHub.sent_of Samples.one_subscriber 0 ++
    imap (fun i line => LogHub.live_frame (Z.of_nat i) line) ["first"; "second"] /\
  default []
    (LogHub.buildLogs
       (LogHub.run (imap (fun i line => LogHub.Publish (Z.of_nat i) "app" line)
                      ["first"; "second"]) Samples.one_subscriber) !! "app")
  = default [] (LogHub.buildLogs Samples.one_subscriber !! "app") ++ ["first"; "second"].
Proof.
  assert (Hreach : LogHub.reachable Samples.one_subscriber).
  { exists [LogHub.Upgrade "/ws/logs" (Some "app") None]. reflexivity. }
  assert (Hin : 0 ∈ LogHub.subscribers_of Samples.one_subscriber "app").
  { vm_compute. apply list_elem_of_here. }
  assert (Hopen : LogHub.is_open Samples.one_subscriber 0 = true) by reflexivity.
  split; [exact Hreach|]. split; [exact Hin|]. split; [exact Hopen|].
  exact (publishes_arrive_in_order Z.of_nat "app" ["first"; "second"]
           Samples.one_subscriber 0 Hreach Hin Hopen).
Defined.

(** ** Deployment tracker and log hub together *)

Section SessionFacts.

Import LogHub Tracker.

Lemma tick_time_next (T : Z) (k : nat) :
  (tick_time T k + tick_period)%Z = tick_time T (S k).
Proof. unfold tick_time, tick_period. lia. Qed.



(** The process once the session has cleaned up after itself. *)
Lemma advance_session_end (h : Hub) (T : Z) (n : nat) (J : list entry)
  (appId : string) (msgs : list string) (m : nat) :
  length msgs + 2 <= m ->
  advance m (session_after h T n J appId msgs 0) =
  {| hub := set_buildLogs (delete appId)
              (hub (session_after h T n J appId msgs (length msgs)));
     clock := (tick_time T (length msgs) + retention)%Z;
     timers := [];
     next_timer := S (S n);
     journal := journal (session_after h T n J appId msgs (length msgs)) ++
                [Purged (tick_time T (length msgs) + retention) appId] |}.
Proof.
  intros Hm. replace m with (length msgs + (1 + (1 + (m - length msgs - 2)))) by lia.
  rewrite advance_add, advance_session by lia.
  set (sa := session_after h T n J appId msgs (length msgs)).
  assert (Hclock : (clock sa <= tick_time T (length msgs))%Z).
  { simpl. unfold tick_time, tick_period. lia. }
  pose proof (run_next_last_tick sa n (tick_time T (length msgs)) tick_period appId
                msgs (length msgs) eq_refl Hclock
                (lookup_ge_None_2 msgs (length msgs) (le_n _))) as H6.
  rewrite advance_add. rewrite (advance_next _ _ 0 H6). cbn [advance].
  match goal with
  | |- advance _ ?r = _ =>
      pose proof (run_next_cleanup r (S n) (tick_time T (length msgs) + retention)
                    appId eq_refl) as H7
  end.
  rewrite advance_add. rewrite (advance_next _ _ 0 (H7 ltac:(simpl; unfold retention; lia))).
  cbn [advance]. apply advance_idle. reflexivity.
Qed.

End SessionFacts.



(** X9: once the retention timer of a session has fired (seven timer events
    after the deployment, when no other timer is pending) the process holds
    no timer of the session any more and no buffer for it, and a client that
    connects then, naming the session as [buildId], is registered but is
    sent nothing on connection: no replay frame, not even an empty one. *)
Theorem subscriber_after_purge_gets_no_replay
  (h : LogHub.Hub) (T : Z) (n : nat) (J : list Tracker.entry)
  (appId templateName a : string) (m : nat) :
  a <> "" -> 7 <= m ->
  let r := Tracker.advance m
             (Tracker.start_session appId templateName
                {| Tracker.hub := h; Tracker.clock := T; Tracker.timers := [];
                   Tracker.next_timer := n; Tracker.journal := J |}) in
  let joined := LogHub.after (LogHub.Upgrade "/ws/logs" (Some a) (Some appId))
                  (Tracker.hub r) in
  Tracker.timers r = [] /\
  LogHub.buildLogs (Tracker.hub r) !! appId = None /\
  LogHub.accepted (Tracker.hub r) ∈ LogHub.subscribers_of joined a /\
  LogHub.sent_of joined (LogHub.accepted (Tracker.hub r)) = [].
Proof.
  intros Ha Hm r joined. subst joined r.
  rewrite start_session_after.
  rewrite advance_session_end by (change (length (Tracker.messages templateName)) with 5; lia).
  cbn [Tracker.hub Tracker.timers].
  match goal with
  | |- context [LogHub.set_buildLogs (delete appId) ?hub'] => set (h5 := hub')
  end.
  set (hp := LogHub.set_buildLogs (delete appId) h5).
  assert (Hnone : LogHub.buildLogs hp !! appId = None).
  { subst hp. simpl. apply lookup_delete_eq. }
  unfold LogHub.after, LogHub.perform.
  rewrite (upgrade_subscribes a (Some appId) hp Ha). cbn [snd].
  split; [reflexivity|]. split; [exact Hnone|]. split.
  - unfold LogHub.subscribers_of at 1. cbn [LogHub.logSubscribers].
    rewrite lookup_insert_eq. simpl. apply elem_of_app. right. apply list_elem_of_here.
  - unfold LogHub.sent_of, LogHub.replay_for. rewrite Hnone.
    cbn [LogHub.sockets]. rewrite lookup_insert_eq. reflexivity.
Qed.

(** The theorem for a static-site session, eight timer events on. *)
Lemma subscriber_after_purge_gets_no_replay_app :
  "viewer" <> "" /\ 7 <= 8 /\
  Tracker.timers
    (Tracker.advance 8
       (Tracker.start_session "app" "Static Site"
          (Tracker.idle_runtime LogHub.empty_hub 0))) = [] /\
  LogHub.buildLogs
    (Tracker.hub
       (Tracker.advance 8
          (Tracker.start_session "app" "Static Site"
             (Tracker.idle_runtime LogHub.empty_hub 0)))) !! "app" = None /\
  LogHub.accepted
    (Tracker.hub
       (Tracker.advance 8
          (Tracker.start_session "app" "Static Site"
             (Tracker.idle_runtime LogHub.empty_hub 0)))) ∈
  LogHub.subscribers_of
    (LogHub.after (LogHub.Upgrade "/ws/logs" (Some "viewer") (Some "app"))
       (Tracker.hub
          (Tracker.advance 8
             (Tracker.start_session "app" "Static Site"
                (Tracker.idle_runtime LogHub.empty_hub 0))))) "viewer" /\
  LogHub.sent_of
    (LogHub.after (LogHub.Upgrade "/ws/logs" (Some "viewer") (Some "app"))
       (Tracker.hub
          (Tracker.advance 8
             (Tracker.start_session "app" "Static Site"
                (Tracker.idle_runtime LogHub.empty_hub 0)))))
    (LogHub.accepted
       (Tracker.hub
          (Tracker.advance 8
             (Tracker.start_session "app" "Static Site"
                (Tracker.idle_runtime LogHub.empty_hub 0))))) = [].
Proof.
  assert (Hne : "viewer" <> "") by discriminate.
  assert (Hm : 7 <= 8) by lia.
  split; [exact Hne|]. split; [exact Hm|].
  exact (subscriber_after_purge_gets_no_replay LogHub.empty_hub 0 0 [] "app"
           "Static Site" "viewer" 8 Hne Hm).
Defined.

(** ** Host names and registry URLs *)

Section LabelFacts.

Import JS Routing.

Lemma append_cons (c : ascii) (s t : string) : String c s +:+ t = String c (s +:+ t).
Proof. reflexivity. Qed.

Lemma append_empty (s : string) : s +:+ "" = s.
Proof.
  induction s as [|c s IH]; [reflexivity|]. rewrite append_cons. f_equal. exact IH.
Qed.

Lemma append_assoc (s t u : string) : (s +:+ t) +:+ u = s +:+ (t +:+ u).
Proof.
  induction s as [|c s IH]; [reflexivity|]. rewrite !append_cons. f_equal. exact IH.
Qed.

Lemma append_char (cur : string) (c : ascii) (s : string) :
  (cur +:+ String c "") +:+ s = cur +:+ String c s.
Proof. rewrite append_assoc. reflexivity. Qed.

Lemma includes_cons (needle : string) (c : ascii) (s : string) :
  includes needle (String c s) = false ->
  String.prefix needle (String c s) = false /\ includes needle s = false.
Proof.
  intros H. change (includes needle (String c s))
    with (String.prefix needle (String c s) || includes needle s) in H.
  apply orb_false_iff in H. exact H.
Qed.

(** A separator cannot start at a character other than its first one. *)
Lemma prefix_other_char (c0 : ascii) (sep' : string) (c : ascii) (s : string) :
  c0 <> c -> String.prefix (String c0 sep') (String c s) = false.
Proof. intros Hc. simpl. destruct (ascii_dec c0 c); [contradiction|reflexivity]. Qed.

Lemma includes_char (c0 c : ascii) (s : string) :
  includes (String c0 "") (String c s) = false ->
  c0 <> c /\ includes (String c0 "") s = false.
Proof.
  intros H. apply includes_cons in H as [Hp Hi]. split; [|exact Hi].
  intros ->. simpl in Hp. destruct (ascii_dec c c); [|contradiction].
  destruct s; discriminate.
Qed.

Lemma split_go_step (sep cur : string) (c : ascii) (s : string) :
  split_go sep 0 cur (String c s) =
  if String.prefix sep (String c s)
  then cur :: split_go sep (String.length sep - 1) "" s
  else split_go sep 0 (cur +:+ String c "") s.
Proof. reflexivity. Qed.

(** [split] reads through a stretch that holds no first character of the
    separator. *)
Lemma split_go_keeps (c0 : ascii) (sep' : string) (pre : string) :
  forall (cur s : string),
    includes (String c0 "") pre = false ->
    split_go (String c0 sep') 0 cur (pre +:+ s) =
    split_go (String c0 sep') 0 (cur +:+ pre) s.
Proof.
  induction pre as [|c p IH]; intros cur s H.
  - rewrite append_empty. reflexivity.
  - apply includes_char in H as [Hc Hp].
    rewrite append_cons, split_go_step.
    rewrite (prefix_other_char c0 sep' c (p +:+ s) Hc).
    rewrite (IH _ s Hp), append_char. reflexivity.
Qed.

(** The first piece starts with what has been read so far. *)
Lemma split_go_head (sep : string) (s : string) :
  forall cur, exists t more, split_go sep 0 cur s = (cur +:+ t) :: more.
Proof.
  induction s as [|c s IH]; intros cur.
  - exists "", []. rewrite append_empty. reflexivity.
  - rewrite split_go_step. destruct (String.prefix sep (String c s)).
    + exists "", (split_go sep (String.length sep - 1) "" s).
      rewrite append_empty. reflexivity.
    + destruct (IH (cur +:+ String c "")) as (t & more & E).
      exists (String c t), more. rewrite E, append_char. reflexivity.
Qed.

(** A string without the separator is its own single piece. *)
Lemma split_go_no_sep (sep : string) (s : string) :
  forall cur, includes sep s = false -> split_go sep 0 cur s = [cur +:+ s].
Proof.
  induction s as [|c s IH]; intros cur H.
  - rewrite append_empty. reflexivity.
  - apply includes_cons in H as [Hp Hi]. rewrite split_go_step, Hp.
    rewrite (IH _ Hi), append_char. reflexivity.
Qed.

(** The first piece at a dot: the longest stretch without one. *)
Lemma split_go_dot (s : string) :
  forall cur, exists t rest more,
    split_go "." 0 cur s = (cur +:+ t) :: more /\
    s = t +:+ rest /\
    includes "." t = false /\
    (rest = "" \/ exists r, rest = String "." r).
Proof.
  induction s as [|c s IH]; intros cur.
  - exists "", "", []. rewrite append_empty. split_and!; auto.
  - destruct (ascii_dec "." c) as [<-|Hc].
    + exists "", (String "." s), (split_go "." 0 "" s).
      rewrite append_empty. split_and!; [|reflexivity|reflexivity|right; eauto].
      simpl. destruct s; reflexivity.
    + destruct (IH (cur +:+ String c "")) as (t & rest & more & E & Es & Hi & Hr).
      exists (String c t), rest, more. split_and!.
      * rewrite split_go_step.
        rewrite (prefix_other_char "." "" c s Hc), E, append_char. reflexivity.
      * rewrite append_cons. f_equal. exact Es.
      * change (includes "." (String c t))
          with (String.prefix "." (String c t) || includes "." t).
        rewrite (prefix_other_char "." "" c t Hc), Hi. reflexivity.
      * exact Hr.
Qed.

(** [split] at an occurrence of the separator. *)
Lemma split_go_at_dot (cur s : string) :
  split_go "." 0 cur ("." +:+ s) = cur :: split_go "." 0 "" s.
Proof.
  change ("." +:+ s) with (String "." s). rewrite split_go_step.
  replace (String.prefix "." (String "." s)) with true by (destruct s; reflexivity).
  reflexivity.
Qed.

Lemma split_go_at_scheme (cur s : string) :
  split_go "://" 0 cur ("://" +:+ s) = cur :: split_go "://" 0 "" s.
Proof.
  change ("://" +:+ s) with (String ":" (String "/" (String "/" s))).
  rewrite split_go_step.
  replace (String.prefix "://" (String ":" (String "/" (String "/" s)))) with true
    by (destruct s; reflexivity).
  reflexivity.
Qed.

Lemma subdomain_label (label rest : string) :
  includes "." label = false -> subdomain (label +:+ "." +:+ rest) = label.
Proof.
  intros H. unfold subdomain, split.
  rewrite (split_go_keeps "." "" label "" ("." +:+ rest) H), split_go_at_dot.
  reflexivity.
Qed.

Lemma appSubdomain_label (scheme label rest : string) (a : AppRecord) :
  url a = scheme +:+ "://" +:+ label +:+ "." +:+ rest ->
  includes ":" scheme = false -> includes ":" label = false ->
  includes "." label = false ->
  appSubdomain a = Some label.
Proof.
  intros Hurl Hs Hl Hd. unfold appSubdomain, split. rewrite Hurl.
  rewrite (split_go_keeps ":" "//" scheme "" ("://" +:+ label +:+ "." +:+ rest) Hs).
  rewrite split_go_at_scheme.
  rewrite (split_go_keeps ":" "//" label "" ("." +:+ rest) Hl).
  change ("." +:+ rest) with (String "." rest). rewrite split_go_step.
  rewrite (prefix_other_char ":" "//" "." rest) by discriminate.
  destruct (split_go_head "://" rest (("" +:+ label) +:+ ".")) as (t & more & E).
  rewrite E. change ("" +:+ label) with label. rewrite append_assoc.
  rewrite (subdomain_label label t Hd). reflexivity.
Qed.

End LabelFacts.

(** X10: the label the middleware routes on is the host name up to its
    first dot: the host name is that label followed either by nothing or by
    a dot and more, and the label holds no dot.  Anything else in the
    [Host] header, a port included, is part of the label when no dot comes
    before it. *)
Theorem subdomain_is_the_first_label (hostname : string) :
  exists rest,
    hostname = Routing.subdomain hostname +:+ rest /\
    JS.includes "." (Routing.subdomain hostname) = false /\
    (rest = "" \/ exists r, rest = String "." r).
Proof.
  destruct (split_go_dot hostname "") as (t & rest & more & E & Es & Hi & Hr).
  unfold Routing.subdomain, JS.split. rewrite E. simpl.
  exists rest. split_and!; assumption.
Qed.

(** X11: the registry is searched by label alone.  A record whose URL is
    [scheme://label.rest] answers to every host name [label.domain],
    whatever [rest] and [domain] are, as long as the label holds no dot and
    neither it nor the scheme holds a colon. *)
Theorem record_answers_to_its_label
  (scheme label rest domain : string) (a : Routing.AppRecord) :
  Routing.url a = scheme +:+ "://" +:+ label +:+ "." +:+ rest ->
  JS.includes ":" scheme = false -> JS.includes ":" label = false ->
  JS.includes "." label = false ->
  Routing.matches (Routing.subdomain (label +:+ "." +:+ domain)) a = true.
Proof.
  intros Hurl Hs Hl Hd. unfold Routing.matches.
  rewrite (appSubdomain_label scheme label rest a Hurl Hs Hl Hd).
  rewrite (subdomain_label label domain Hd). apply String.eqb_refl.
Qed.

(** The theorem for the record of [https://foo.example.com] and the host
    [foo.other.test]. *)
Lemma record_answers_to_its_label_foo :
  Routing.url Samples.foo_running = "https" +:+ "://" +:+ "foo" +:+ "." +:+ "example.com" /\
  JS.includes ":" "https" = false /\ JS.includes ":" "foo" = false /\
  JS.includes "." "foo" = false /\
  Routing.matches (Routing.subdomain ("foo" +:+ "." +:+ "other.test"))
    Samples.foo_running = true.
Proof.
  split; [reflexivity|]. split; [reflexivity|]. split; [reflexivity|].
  split; [reflexivity|].
  exact (record_answers_to_its_label "https" "foo" "example.com" "other.test"
           Samples.foo_running eq_refl eq_refl eq_refl eq_refl).
Defined.

(** X12: a record whose URL holds no [://] is never the one [find]
    returns, whatever the host name and wherever it stands in the
    registry: the optional chaining of line 67 makes its label
    [undefined], which equals no string. *)
Theorem record_without_scheme_is_never_found
  (sub : string) (apps : list Routing.AppRecord) (a : Routing.AppRecord) :
  JS.includes "://" (Routing.url a) = false ->
  Routing.matches sub a = false /\
  Routing.find (Routing.matches sub) apps <> Some a.
Proof.
  intros Hurl.
  assert (Hm : Routing.matches sub a = false).
  { unfold Routing.matches, Routing.appSubdomain, JS.split.
    rewrite (split_go_no_sep "://" (Routing.url a) "" Hurl). reflexivity. }
  split; [exact Hm|].
  induction apps as [|b rest IH]; [discriminate|].
  simpl. destruct (Routing.matches sub b) eqn:Hb; [|exact IH].
  intros Hfind. injection Hfind as ->. congruence.
Qed.

(** The theorem for a running record registered as [foo.example.com],
    without a scheme, and the host label [foo]. *)
Lemma record_without_scheme_is_never_found_foo :
  JS.includes "://" (Routing.url Samples.foo_bare) = false /\
  Routing.matches "foo" Samples.foo_bare = false /\
  Routing.find (Routing.matches "foo") [Samples.foo_bare] <> Some Samples.foo_bare.
Proof.
  split; [reflexivity|].
  exact (record_without_scheme_is_never_found "foo" [Samples.foo_bare]
           Samples.foo_bare eq_refl).
Defined.

(** ** Build log stream *)

Section StreamFacts.

Import Stream.

Lemma run_closed (buildId : string) (events : list event) (res : Response) :
  polling res = false -> run buildId events res = res.
Proof.
  revert res. induction events as [|e rest IH]; intros res Hp; [reflexivity|].
  unfold run in *. simpl. destruct e as [now h|]; simpl.
  - unfold on_interval. rewrite Hp. apply IH, Hp.
  - rewrite IH by reflexivity. destruct res as [hd w p]. simpl in Hp. subst p.
    reflexivity.
Qed.

Lemma run_polling (buildId : string) (events : list event) :
  forall res, polling res = true ->
    written (run buildId events res) =
      written res ++ omap (pushed buildId) (before_close events) /\
    polling (run buildId events res) = negb (existsb is_closed events) /\
    headers (run buildId events res) = headers res.
Proof.
  induction events as [|e rest IH]; intros res Hp.
  - simpl. rewrite app_nil_r. auto.
  - destruct e as [now h|].
    + change (run buildId (Due now h :: rest) res)
        with (run buildId rest (on_interval buildId now h res)).
      unfold on_interval. rewrite Hp. simpl.
      destruct (LogHub.buildLogs h !! buildId) as [logs|]; simpl.
      * destruct (IH (write (Update logs now) res) Hp) as (E1 & E2 & E3).
        rewrite E1, E2, E3. simpl. rewrite <- app_assoc. auto.
      * apply IH, Hp.
    + change (run buildId (Closed :: rest) res) with (run buildId rest (on_close res)).
      rewrite run_closed by reflexivity. simpl. rewrite app_nil_r. auto.
Qed.

End StreamFacts.

(** X13: everything a build log stream sends.  On a request made when the
    hub is [h], the response gets the initial flush when the buffer exists,
    then one event each time the interval comes due while the buffer
    exists, each with the whole buffer as it is then, and nothing once the
    client has gone away.  The interval stays armed until then: the server
    never ends the stream itself, whether the buffer exists or not. *)
Theorem stream_sends_snapshots_until_closed
  (buildId : string) (h : LogHub.Hub) (events : list Stream.event) :
  Stream.written (Stream.run buildId events (Stream.open buildId h)) =
    Stream.flushed buildId h ++
    omap (Stream.pushed buildId) (Stream.before_close events) /\
  Stream.polling (Stream.run buildId events (Stream.open buildId h)) =
    negb (existsb Stream.is_closed events).
Proof.
  destruct (run_polling buildId events (Stream.open buildId h)) as (E1 & E2 & _).
  { unfold Stream.open. destruct (LogHub.buildLogs h !! buildId); reflexivity. }
  split; [|exact E2]. rewrite E1. f_equal.
  unfold Stream.open, Stream.flushed. destruct (LogHub.buildLogs h !! buildId); reflexivity.
Qed.



(** ** Metrics without counters, and host statistics *)

Section SnapshotFacts.

Import Number Metrics.

Lemma reduce_sum_zero (counter : Container -> number) (l : list Container) :
  Forall (fun c => counter c = zero) l -> reduce_sum counter l = zero.
Proof.
  unfold reduce_sum. induction 1 as [|c l Hc _ IH]; [reflexivity|].
  simpl. rewrite Hc. exact IH.
Qed.

(** Nothing used is 0 percent of any total, also of one that is not a
    positive number. *)
Lemma memory_percent_of_zero (totalMemory : number) :
  memory_percent totalMemory zero = zero.
Proof.
  unfold memory_percent.
  destruct totalMemory as [s|s| |s m e]; try destruct s; reflexivity.
Qed.

(** Rounding to the format never makes [NaN] of a mantissa. *)
Lemma binary_round_aux_number (sx : bool) (mx ex : Z) (lx : location) :
  (0 <= mx)%Z -> binary_round_aux prec emax sx mx ex lx <> S754_nan.
Proof.
  intros Hmx. unfold binary_round_aux.
  destruct (shr_fexp_spec mx ex lx Hmx) as [He1 Hm1].
  destruct (shr_fexp prec emax mx ex lx) as [mrs1 e1]. simpl in He1, Hm1.
  rewrite <- He1 in Hm1.
  assert (Hpow1 : (0 < 2 ^ (e1 - ex))%Z) by (apply Z.pow_pos_nonneg; lia).
  assert (Hm1' : (0 <= shr_m mrs1)%Z) by (rewrite Hm1; apply Z.div_pos; lia).
  pose proof (round_nearest_even_le (shr_m mrs1) (loc_of_shr_record mrs1)) as Hm2.
  set (m2 := round_nearest_even (shr_m mrs1) (loc_of_shr_record mrs1)) in *.
  assert (Hm2' : (0 <= m2)%Z) by lia.
  destruct (shr_fexp_spec m2 e1 loc_Exact Hm2') as [He2 Hm3].
  destruct (shr_fexp prec emax m2 e1 loc_Exact) as [mrs2 e2]. simpl in He2, Hm3.
  rewrite <- He2 in Hm3.
  assert (Hpow2 : (0 < 2 ^ (e2 - e1))%Z) by (apply Z.pow_pos_nonneg; lia).
  assert (Hm3' : (0 <= shr_m mrs2)%Z) by (rewrite Hm3; apply Z.div_pos; lia).
  destruct (shr_m mrs2) as [|m|m]; [discriminate| |lia].
  destruct (e2 <=? emax - prec)%Z; discriminate.
Qed.

Lemma binary_normalize_number (z : Z) (s : bool) :
  binary_normalize prec emax z 0 s <> S754_nan.
Proof.
  destruct z as [|m|m]; simpl; [discriminate| |];
    unfold binary_round;
    destruct (shl_align _ _ _) as [mz ez];
    apply binary_round_aux_number; lia.
Qed.

(** [Math.round] answers [NaN] for [NaN] only. *)
Lemma round_number (x : number) : x <> S754_nan -> round x <> S754_nan.
Proof.
  intros Hx. destruct x as [s|s| |s m e]; simpl; try discriminate; [contradiction|].
  destruct (0 <=? e)%Z; [discriminate|]. apply binary_normalize_number.
Qed.

Lemma or_zero_number (x : number) : or_zero x <> S754_nan.
Proof. destruct x as [s|s| |s m e]; discriminate. Qed.

Lemma drop_percent_cons (c : ascii) (s : string) :
  drop_percent (String c s) =
  if Ascii.eqb c "%" then s else String c (drop_percent s).
Proof. reflexivity. Qed.

End SnapshotFacts.

(** X15: when no platform container carries a [MemoryUsage] or a
    [NetworkSettings] field, the snapshot reports 0 for the memory used,
    for the memory percentage and for both network totals, whatever the
    engine's total memory is and however many containers there are. *)
Theorem snapshot_without_counters_is_zero
  (parseFloat parseInt : string -> Number.number) (trim : string -> string)
  (info : Metrics.DockerInfo) (containers : list Metrics.Container)
  (cpu_exec disk_exec : option string) :
  Forall (fun c => Metrics.MemoryUsage c = None /\ Metrics.Network c = None)
    (Metrics.platformContainers containers) ->
  exists body,
    Metrics.metrics parseFloat parseInt trim (Some info) (Some containers)
      cpu_exec disk_exec = Metrics.Json body /\
    Metrics.used (Metrics.memory body) = Number.zero /\
    Metrics.percent (Metrics.memory body) = Number.zero /\
    Metrics.totalRx body = Number.zero /\
    Metrics.totalTx body = Number.zero.
Proof.
  intros Hall. eexists. split; [reflexivity|]. cbn [Metrics.memory Metrics.used
    Metrics.percent Metrics.totalRx Metrics.totalTx].
  assert (Hmem : Metrics.reduce_sum Metrics.memory_counter
                   (Metrics.platformContainers containers) = Number.zero).
  { apply reduce_sum_zero. eapply Forall_impl; [exact Hall|].
    intros c [Hm _]. unfold Metrics.memory_counter. rewrite Hm. reflexivity. }
  assert (Hrx : Metrics.reduce_sum Metrics.rx_counter
                  (Metrics.platformContainers containers) = Number.zero).
  { apply reduce_sum_zero. eapply Forall_impl; [exact Hall|].
    intros c [_ Hn]. unfold Metrics.rx_counter. rewrite Hn. reflexivity. }
  assert (Htx : Metrics.reduce_sum Metrics.tx_counter
                  (Metrics.platformContainers containers) = Number.zero).
  { apply reduce_sum_zero. eapply Forall_impl; [exact Hall|].
    intros c [_ Hn]. unfold Metrics.tx_counter. rewrite Hn. reflexivity. }
  rewrite Hmem, Hrx, Htx, memory_percent_of_zero. auto.
Qed.

(** The theorem for one platform container as the engine lists it, without
    either field, beside one container that has both. *)
Lemma snapshot_without_counters_is_zero_listed :
  Forall (fun c => Metrics.MemoryUsage c = None /\ Metrics.Network c = None)
    (Metrics.platformContainers Samples.listed_containers) /\
  exists body,
    Metrics.metrics Samples.not_a_number Samples.not_a_number Samples.untrimmed
      (Some Samples.engine_info) (Some Samples.listed_containers) None None
      = Metrics.Json body /\
    Metrics.used (Metrics.memory body) = Number.zero /\
    Metrics.percent (Metrics.memory body) = Number.zero /\
    Metrics.totalRx body = Number.zero /\
    Metrics.totalTx body = Number.zero.
Proof.
  assert (H : Forall (fun c => Metrics.MemoryUsage c = None /\ Metrics.Network c = None)
                (Metrics.platformContainers Samples.listed_containers)).
  { repeat constructor. }
  split; [exact H|].
  exact (snapshot_without_counters_is_zero Samples.not_a_number Samples.not_a_number
           Samples.untrimmed Samples.engine_info Samples.listed_containers None None H).
Defined.

(** X16: the host statistics never hold [NaN], whatever the two commands
    print and whether they run or fail: a load or a usage that does not
    parse counts as 0, and rounding keeps a number a number. *)
Theorem system_stats_are_numbers
  (parseFloat parseInt : string -> Number.number) (trim : string -> string)
  (cpu_exec disk_exec : option string) :
  Metrics.cpuLoad (Metrics.getSystemStats parseFloat parseInt trim cpu_exec disk_exec)
    <> S754_nan /\
  Metrics.usage
    (Metrics.disk (Metrics.getSystemStats parseFloat parseInt trim cpu_exec disk_exec))
    <> S754_nan.
Proof.
  unfold Metrics.getSystemStats.
  destruct cpu_exec as [cpuStdout|]; [|split; discriminate].
  destruct disk_exec as [diskStdout|]; [|split; discriminate].
  cbn [Metrics.cpuLoad Metrics.disk Metrics.usage]. split.
  - apply round_number, or_zero_number.
  - apply or_zero_number.
Qed.

(** X17: the text handed to [parseInt] is the output of [df] with its first
    percent sign taken out, and only that one: what follows it is kept as
    it is, and a text without a percent sign is left alone. *)
Theorem only_first_percent_sign_is_dropped (pre post : string) :
  JS.includes "%" pre = false ->
  Metrics.drop_percent (pre +:+ "%" +:+ post) = pre +:+ post /\
  Metrics.drop_percent pre = pre.
Proof.
  induction pre as [|c p IH]; intros H.
  - split; reflexivity.
  - apply includes_char in H as [Hc Hp]. destruct (IH Hp) as [E1 E2].
    assert (Hneq : Ascii.eqb c "%" = false).
    { apply Ascii.eqb_neq. congruence. }
    rewrite (append_cons c p ("%" +:+ post)), (append_cons c p post).
    rewrite !drop_percent_cons, Hneq, E1, E2. split; reflexivity.
Qed.

(** The theorem for the output [45%] followed by a second sign. *)
Lemma only_first_percent_sign_is_dropped_45 :
  JS.includes "%" "45" = false /\
  Metrics.drop_percent ("45" +:+ "%" +:+ "%") = "45" +:+ "%" /\
  Metrics.drop_percent "45" = "45".
Proof.
  split; [reflexivity|].
  exact (only_first_percent_sign_is_dropped "45" "%" eq_refl).
Defined.

(** ** A second build of the same application *)

Section RedeployFacts.

Import LogHub Tracker.

(** The interval timer of a session fires while a timer armed before it is
    due later. *)
Lemma run_next_tick_behind (r : Runtime) (c : Timer) (id : nat) (d p : Z)
  (appId log : string) (msgs : list string) (i : nat) :
  timers r = [c; {| timer_id := id; due := d; period := Some p;
                    callback_of := Tick appId msgs i |}] ->
  timer_id c <> id -> (d < due c)%Z -> (clock r <= d)%Z -> msgs !! i = Some log ->
  run_next r =
  Some {| hub := after (Publish d appId log) (hub r);
          clock := d;
          timers := [c; {| timer_id := id; due := (d + p)%Z; period := Some p;
                           callback_of := Tick appId msgs (S i) |}];
          next_timer := next_timer r;
          journal := journal r ++ [Published d appId log] |}.
Proof.
  intros Ht Hid Hd Hclock Hmsg. unfold run_next. rewrite Ht. cbn [earliest due].
  rewrite (proj2 (Z.ltb_lt d (due c)) Hd).
  unfold fire. cbn [callback_of]. rewrite Hmsg.
  unfold rearm, record, with_hub. simpl.
  rewrite (proj2 (Nat.eqb_neq (timer_id c) id) Hid).
  rewrite Nat.eqb_refl, Z.max_r by exact Hclock. simpl. reflexivity.
Qed.

Lemma run_next_last_tick_behind (r : Runtime) (c : Timer) (id : nat) (d p : Z)
  (appId : string) (msgs : list string) (i : nat) :
  timers r = [c; {| timer_id := id; due := d; period := Some p;
                    callback_of := Tick appId msgs i |}] ->
  timer_id c <> id -> (d < due c)%Z -> (clock r <= d)%Z -> msgs !! i = None ->
  run_next r =
  Some {| hub := hub r;
          clock := d;
          timers := [c; {| timer_id := next_timer r; due := (d + retention)%Z;
                           period := None; callback_of := Cleanup appId |}];
          next_timer := S (next_timer r);
          journal := journal r |}.
Proof.
  intros Ht Hid Hd Hclock Hmsg. unfold run_next. rewrite Ht. cbn [earliest due].
  rewrite (proj2 (Z.ltb_lt d (due c)) Hd).
  unfold fire. cbn [callback_of]. rewrite Hmsg.
  unfold setTimeout, arm, clearTimer. simpl.
  rewrite (proj2 (Nat.eqb_neq (timer_id c) id) Hid).
  rewrite Nat.eqb_refl, Z.max_r by exact Hclock. simpl. reflexivity.
Qed.

(** A clean-up fires before a timer armed after it that is not due
    earlier. *)
Lemma run_next_cleanup_first (r : Runtime) (id : nat) (d : Z) (appId : string)
  (t : Timer) :
  timers r = [{| timer_id := id; due := d; period := None;
                 callback_of := Cleanup appId |}; t] ->
  timer_id t <> id -> (d <= due t)%Z -> (clock r <= d)%Z ->
  run_next r =
  Some {| hub := set_buildLogs (delete appId) (hub r);
          clock := d;
          timers := [t];
          next_timer := next_timer r;
          journal := journal r ++ [Purged d appId] |}.
Proof.
  intros Ht Hid Hd Hclock. unfold run_next. rewrite Ht. cbn [earliest due].
  rewrite (proj2 (Z.ltb_ge (due t) d) Hd).
  unfold fire. cbn [callback_of]. unfold record, with_hub, clearTimer. simpl.
  rewrite (proj2 (Nat.eqb_neq (timer_id t) id) Hid).
  rewrite Nat.eqb_refl, Z.max_r by exact Hclock. simpl. reflexivity.
Qed.

Lemma advance_ticking_behind (j : nat) :
  forall (r : Runtime) (c : Timer) (id : nat) (appId : string) (msgs : list string)
         (k : nat) (T : Z),
    timers r = [c; {| timer_id := id; due := tick_time T k; period := Some tick_period;
                      callback_of := Tick appId msgs k |}] ->
    timer_id c <> id -> (tick_time T (k + j) <= due c)%Z ->
    (clock r <= tick_time T k)%Z -> k + j <= length msgs ->
    hub (advance j r) =
      run (imap (fun i line => Publish (tick_time T (k + i)) appId line)
             (take j (drop k msgs))) (hub r) /\
    timers (advance j r) =
      [c; {| timer_id := id; due := tick_time T (k + j); period := Some tick_period;
             callback_of := Tick appId msgs (k + j) |}] /\
    (clock (advance j r) <= tick_time T (k + j))%Z /\
    next_timer (advance j r) = next_timer r /\
    journal (advance j r) =
      journal r ++ imap (fun i line => Published (tick_time T (k + i)) appId line)
                     (take j (drop k msgs)).
Proof.
  induction j as [|j IH]; intros r c id appId msgs k T Ht Hid Hdue Hclock Hlen.
  - rewrite Nat.add_0_r. simpl. rewrite app_nil_r.
    split_and!; [reflexivity | exact Ht | exact Hclock | reflexivity | reflexivity].
  - destruct (lookup_lt_is_Some_2 msgs k ltac:(lia)) as [log Hlog].
    assert (Hd : (tick_time T k < due c)%Z).
    { revert Hdue. unfold tick_time, tick_period. lia. }
    pose proof (run_next_tick_behind r c id (tick_time T k) tick_period appId log msgs k
                  Ht Hid Hd Hclock Hlog) as Hnext.
    rewrite tick_time_next in Hnext.
    rewrite (advance_next _ _ j Hnext).
    match type of Hnext with _ = Some ?next => set (r1 := next) in * end.
    destruct (IH r1 c id appId msgs (S k) T) as (E1 & E2 & E3 & E4 & E5).
    + reflexivity.
    + exact Hid.
    + replace (S k + j) with (k + S j) by lia. exact Hdue.
    + subst r1. simpl. unfold tick_time, tick_period. lia.
    + lia.
    + replace (k + S j) with (S k + j) by lia.
      split_and!; [|exact E2|exact E3|exact E4|].
      * rewrite E1. subst r1. cbn [hub].
        rewrite (drop_S msgs log k Hlog).
        change (run (imap (fun i line => Publish (tick_time T (k + i)) appId line)
                       (take (S j) (log :: drop (S k) msgs))) (hub r))
          with (run (imap ((fun i line => Publish (tick_time T (k + i)) appId line) ∘ S)
                       (take j (drop (S k) msgs)))
                  (after (Publish (tick_time T (k + 0)) appId log) (hub r))).
        rewrite Nat.add_0_r.
        f_equal. apply imap_ext. intros i line _. simpl. do 2 f_equal. lia.
      * rewrite E5. subst r1. cbn [journal].
        rewrite (drop_S msgs log k Hlog). rewrite <- app_assoc.
        change (take (S j) (log :: drop (S k) msgs))
          with (log :: take j (drop (S k) msgs)).
        cbn [imap]. rewrite Nat.add_0_r. cbn [app]. do 2 f_equal.
        apply imap_ext. intros i line _. simpl. do 2 f_equal. lia.
Qed.

Lemma advance_one (r r' : Runtime) : run_next r = Some r' -> advance 1 r = r'.
Proof. intros H. simpl. rewrite H. reflexivity. Qed.

(** The process when a session has published its last line and armed its
    clean-up. *)
Lemma advance_session_complete (h : Hub) (T : Z) (n : nat) (J : list entry)
  (appId : string) (msgs : list string) :
  advance (length msgs + 1) (session_after h T n J appId msgs 0) =
  {| hub := hub (session_after h T n J appId msgs (length msgs));
     clock := tick_time T (length msgs);
     timers := [{| timer_id := S n; due := (tick_time T (length msgs) + retention)%Z;
                   period := None; callback_of := Cleanup appId |}];
     next_timer := S (S n);
     journal := journal (session_after h T n J appId msgs (length msgs)) |}.
Proof.
  rewrite advance_add, advance_session by lia.
  set (sa := session_after h T n J appId msgs (length msgs)).
  assert (Hclock : (clock sa <= tick_time T (length msgs))%Z).
  { simpl. unfold tick_time, tick_period. lia. }
  pose proof (run_next_last_tick sa n (tick_time T (length msgs)) tick_period appId
                msgs (length msgs) eq_refl Hclock
                (lookup_ge_None_2 msgs (length msgs) (le_n _))) as H6.
  rewrite (advance_next _ _ 0 H6). reflexivity.
Qed.

End RedeployFacts.

(** X18: the clean-up timer of a build purges whatever buffer its
    application has when it fires.  When the same application is deployed
    again at [T'], after its first build (started at [T]) has completed and
    less than the retention time after [T], the second build runs to its
    last line, and the next timer to fire is the clean-up of the first
    build: it deletes the buffer of the second build at the first build's
    completion time plus the retention time, that is [T' - T] sooner than
    the second build's own clean-up, which stays armed. *)
Theorem second_build_is_purged_by_the_first
  (h : LogHub.Hub) (T : Z) (n : nat) (J : list Tracker.entry)
  (appId name1 name2 : string) (T' : Z) :
  (Tracker.tick_time T 5 <= T')%Z -> (T' < T + Tracker.retention)%Z ->
  let r1 := Tracker.advance 6
              (Tracker.start_session appId name1
                 {| Tracker.hub := h; Tracker.clock := T; Tracker.timers := [];
                    Tracker.next_timer := n; Tracker.journal := J |}) in
  let r2 := Tracker.advance 6
              (Tracker.start_session appId name2 (Tracker.at_time T' r1)) in
  let r3 := Tracker.advance 1 r2 in
  LogHub.buildLogs (Tracker.hub r2) !! appId =
    Some (Tracker.starting_line :: Tracker.messages name2) /\
  Tracker.clock r2 = Tracker.tick_time T' 5 /\
  LogHub.buildLogs (Tracker.hub r3) !! appId = None /\
  Tracker.clock r3 = (Tracker.tick_time T 5 + Tracker.retention)%Z /\
  Tracker.timers r3 =
    [{| Tracker.timer_id := S (S (S n));
        Tracker.due := (Tracker.tick_time T' 5 + Tracker.retention)%Z;
        Tracker.period := None;
        Tracker.callback_of := Tracker.Cleanup appId |}].
Proof.
  intros Hafter Hbefore r1 r2 r3.
  pose proof (advance_session_complete h T n J appId (Tracker.messages name1)) as Hr1.
  change (length (Tracker.messages name1)) with 5 in Hr1.
  change (5 + 1) with 6 in Hr1.
  subst r3 r2 r1. rewrite start_session_after, Hr1. clear Hr1.
  set (h5 := Tracker.hub (Tracker.session_after h T n J appId (Tracker.messages name1) 5)).
  set (J5 := Tracker.journal
               (Tracker.session_after h T n J appId (Tracker.messages name1) 5)).
  set (c := {| Tracker.timer_id := S n;
               Tracker.due := (Tracker.tick_time T 5 + Tracker.retention)%Z;
               Tracker.period := None; Tracker.callback_of := Tracker.Cleanup appId |}).
  set (msgs := Tracker.messages name2).
  match goal with
  | |- context [Tracker.start_session appId name2 ?r] =>
      set (s2 := Tracker.start_session appId name2 r)
  end.
  assert (Hdue0 : (T' + Tracker.tick_period = Tracker.tick_time T' 0)%Z)
    by (unfold Tracker.tick_time, Tracker.tick_period; lia).
  assert (Ht : Tracker.timers s2 =
               [c; {| Tracker.timer_id := S (S n); Tracker.due := Tracker.tick_time T' 0;
                      Tracker.period := Some Tracker.tick_period;
                      Tracker.callback_of := Tracker.Tick appId msgs 0 |}]).
  { subst s2. unfold Tracker.start_session, Tracker.simulateBuildLogs,
      Tracker.setInterval, Tracker.arm, Tracker.at_time.
    cbn [Tracker.timers Tracker.clock Tracker.next_timer]. rewrite Hdue0. reflexivity. }
  assert (Hid : Tracker.timer_id c <> S (S n)) by (simpl; lia).
  assert (Hlast : (Tracker.tick_time T' 5 < Tracker.due c)%Z).
  { simpl. revert Hbefore. unfold Tracker.tick_time, Tracker.tick_period. lia. }
  destruct (advance_ticking_behind 5 s2 c (S (S n)) appId msgs 0 T' Ht Hid)
    as (E1 & E2 & E3 & E4 & E5).
  { simpl Nat.add. lia. }
  { subst s2. simpl. unfold Tracker.tick_time, Tracker.tick_period. lia. }
  { reflexivity. }
  simpl Nat.add in E2, E3.
  pose proof (run_next_last_tick_behind (Tracker.advance 5 s2) c (S (S n))
                (Tracker.tick_time T' 5) Tracker.tick_period appId msgs 5
                E2 Hid Hlast E3 eq_refl) as H6.
  replace (Tracker.advance 6 s2) with (Tracker.advance 1 (Tracker.advance 5 s2))
    by (rewrite <- advance_add; reflexivity).
  assert (Hnext : Tracker.next_timer s2 = S (S (S n))) by reflexivity.
  rewrite E4, Hnext in H6.
  rewrite (advance_one _ _ H6).
  match type of H6 with
  | _ = Some ?r =>
      pose proof (run_next_cleanup_first r (S n)
                    (Tracker.tick_time T 5 + Tracker.retention)%Z appId
                    {| Tracker.timer_id := S (S (S n));
                       Tracker.due := (Tracker.tick_time T' 5 + Tracker.retention)%Z;
                       Tracker.period := None;
                       Tracker.callback_of := Tracker.Cleanup appId |}
                    eq_refl) as H7
  end.
  rewrite (advance_one _ _ (H7 ltac:(simpl; lia)
             ltac:(simpl; revert Hafter;
                   unfold Tracker.tick_time, Tracker.tick_period; lia)
             ltac:(simpl; revert Hbefore;
                   unfold Tracker.tick_time, Tracker.tick_period; lia))).
  - cbn [Tracker.hub Tracker.clock Tracker.timers].
    split_and!; try reflexivity.
    + rewrite E1.
      assert (Hs2 : LogHub.buildLogs (Tracker.hub s2) !! appId
                    = Some [Tracker.starting_line]).
      { subst s2. simpl. apply lookup_insert_eq. }
      rewrite (run_publishes_buffer _ appId _ [Tracker.starting_line] _ Hs2).
      reflexivity.
    + simpl. apply lookup_delete_eq.
Qed.

(** The theorem for a static site deployed at time 0 and again, under the
    same identifier, twenty seconds later. *)
Lemma second_build_is_purged_by_the_first_app :
  (Tracker.tick_time 0 5 <= 20000)%Z /\ (20000 < 0 + Tracker.retention)%Z /\
  let r2 := Tracker.advance 6
              (Tracker.start_session "app" "Static Site"
                 (Tracker.at_time 20000
                    (Tracker.advance 6 Samples.static_site_session))) in
  let r3 := Tracker.advance 1 r2 in
  LogHub.buildLogs (Tracker.hub r2) !! "app" =
    Some (Tracker.starting_line :: Tracker.messages "Static Site") /\
  Tracker.clock r2 = Tracker.tick_time 20000 5 /\
  LogHub.buildLogs (Tracker.hub r3) !! "app" = None /\
  Tracker.clock r3 = (Tracker.tick_time 0 5 + Tracker.retention)%Z /\
  Tracker.timers r3 =
    [{| Tracker.timer_id := 3;
        Tracker.due := (Tracker.tick_time 20000 5 + Tracker.retention)%Z;
        Tracker.period := None;
        Tracker.callback_of := Tracker.Cleanup "app" |}].
Proof.
  assert (Hafter : (Tracker.tick_time 0 5 <= 20000)%Z)
    by (unfold Tracker.tick_time, Tracker.tick_period; lia).
  assert (Hbefore : (20000 < 0 + Tracker.retention)%Z)
    by (unfold Tracker.retention; lia).
  split; [exact Hafter|]. split; [exact Hbefore|].
  exact (second_build_is_purged_by_the_first LogHub.empty_hub 0 0 [] "app"
           "Static Site" "Static Site" 20000 Hafter Hbefore).
Defined.
